(** * Discrete surfaces with elastic metrics: a shallow embedding

    Embedding of [geomstats/geometry/discrete_surfaces.py]: the manifold of
    triangulated surfaces ([DiscreteSurfaces]), the six-term elastic metric
    ([ElasticMetric]) and the discrete geodesic integrator
    ([DiscreteSurfacesExpSolver]).

    Conventions of the embedding.
    - Array entries are real numbers: floating-point arrays are read as
      arrays over [R], so equalities below are exact where the Python
      results agree up to rounding.
    - A surface or tangent vector of shape [[n_vertices, 3]] is a list of
      rows; leading batch axes repeat the same computation per element and
      are modelled only where the source branches on them.
    - A Python exception ([IndexError] on a vertex index out of range, a
      shape mismatch, [LinAlgError] on a singular matrix) is [None].
    - The reals have no [inf] and no [NaN]. The embedding over [R] agrees
      with the floating-point code where every intermediate is a finite
      number: away from overflow, from a division by zero (a vertex area
      of a vertex in no face, [n_steps - 1] for [n_steps = 1]) and from a
      square root of a determinant that rounds below zero (a degenerate
      face). A statement about the value of such a quotient or square
      root on one input carries the condition as a hypothesis; an
      equation between two runs of the same computation, and statements
      about shapes and about raising, do not need it. Where a claim is
      about [NaN] itself, the area computation is embedded a second time
      in binary64 ([Float64]). *)

From Stdlib Require Import Reals Lra Lia ZArith.
From stdpp Require Import base option list.
From Corelib Require PrimFloat.

Open Scope R_scope.

(** ** Numerical backend

    The array backend ([geomstats.backend], imported as [gs]) and
    [Matrices.transpose] are not part of the module; the operations the
    module calls are fixed here by their usual mathematical meaning, at
    the shapes at which it calls them. *)
Module Backend.

#[global] Instance Rlt_decision (x y : R) : Decision (x < y) := Rlt_dec x y.
#[global] Instance Req_decision (x y : R) : Decision (x = y) := Req_dec_T x y.

(** A row of a [[..., 3]] array. *)
Abbreviation V3 := (R * R * R)%type.

Definition zero3 : V3 := (0, 0, 0).

Definition add3 (a b : V3) : V3 :=
  let '(a1, a2, a3) := a in let '(b1, b2, b3) := b in
  (a1 + b1, a2 + b2, a3 + b3).

Definition sub3 (a b : V3) : V3 :=
  let '(a1, a2, a3) := a in let '(b1, b2, b3) := b in
  (a1 - b1, a2 - b2, a3 - b3).

(** Scalar times row, [c * a]. *)
Definition scal3 (c : R) (a : V3) : V3 :=
  let '(a1, a2, a3) := a in (c * a1, c * a2, c * a3).

(** Row divided by a scalar, [a / c]. *)
Definition div3 (a : V3) (c : R) : V3 :=
  let '(a1, a2, a3) := a in (a1 / c, a2 / c, a3 / c).

(** Modelled from the spec: [gs.einsum("...bi,...bi->...b", a, b)] of the
    backend, on one row: the dot product. *)
Definition dot3 (a b : V3) : R :=
  let '(a1, a2, a3) := a in let '(b1, b2, b3) := b in
  a1 * b1 + a2 * b2 + a3 * b3.

(** Modelled from the spec: [gs.cross] of the backend, the cross product
    of two rows. *)
Definition cross (a b : V3) : V3 :=
  let '(a1, a2, a3) := a in let '(b1, b2, b3) := b in
  (a2 * b3 - a3 * b2, a3 * b1 - a1 * b3, a1 * b2 - a2 * b1).

(** Modelled from the spec: [gs.linalg.norm(_, axis=-1)] of the backend,
    the Euclidean norm of a row. *)
Definition norm (a : V3) : R :=
  let '(a1, a2, a3) := a in sqrt (a1 * a1 + a2 * a2 + a3 * a3).

(** Modelled from the spec: [ndarray.clip(min=m)] of the backend, the
    larger of the entry and [m]. *)
Definition clip_min (x m : R) : R := Rmax x m.

(** Modelled from the spec: [gs.sum(_, axis=-1)] of the backend on a
    one-axis array. *)
Definition sum (l : list R) : R := foldr Rplus 0 l.
#[global] Arguments sum : simpl never.

(** Small dense matrices, by rows. *)
Abbreviation M22 := ((R * R) * (R * R))%type.
Abbreviation M23 := (V3 * V3)%type.
Abbreviation M32 := ((R * R) * (R * R) * (R * R))%type.
Abbreviation M33 := (V3 * V3 * V3)%type.

(** Modelled from the spec: [Matrices.transpose], at the two shapes in
    use. *)
Definition transpose_23 (m : M23) : M32 :=
  let '((a11, a12, a13), (a21, a22, a23)) := m in
  ((a11, a21), (a12, a22), (a13, a23)).

Definition transpose_32 (m : M32) : M23 :=
  let '((a11, a12), (a21, a22), (a31, a32)) := m in
  ((a11, a21, a31), (a12, a22, a32)).

(** Modelled from the spec: [gs.matmul] of the backend, at the shapes in
    use. *)
Definition matmul_23_32 (a : M23) (b : M32) : M22 :=
  let '((a11, a12, a13), (a21, a22, a23)) := a in
  let '((b11, b12), (b21, b22), (b31, b32)) := b in
  ((a11 * b11 + a12 * b21 + a13 * b31, a11 * b12 + a12 * b22 + a13 * b32),
   (a21 * b11 + a22 * b21 + a23 * b31, a21 * b12 + a22 * b22 + a23 * b32)).

Definition matmul_22_22 (a b : M22) : M22 :=
  let '((a11, a12), (a21, a22)) := a in
  let '((b11, b12), (b21, b22)) := b in
  ((a11 * b11 + a12 * b21, a11 * b12 + a12 * b22),
   (a21 * b11 + a22 * b21, a21 * b12 + a22 * b22)).

Definition matmul_32_22 (a : M32) (b : M22) : M32 :=
  let '((a11, a12), (a21, a22), (a31, a32)) := a in
  let '((b11, b12), (b21, b22)) := b in
  ((a11 * b11 + a12 * b21, a11 * b12 + a12 * b22),
   (a21 * b11 + a22 * b21, a21 * b12 + a22 * b22),
   (a31 * b11 + a32 * b21, a31 * b12 + a32 * b22)).

Definition matmul_22_23 (a : M22) (b : M23) : M23 :=
  let '((a11, a12), (a21, a22)) := a in
  let '((b11, b12, b13), (b21, b22, b23)) := b in
  ((a11 * b11 + a12 * b21, a11 * b12 + a12 * b22, a11 * b13 + a12 * b23),
   (a21 * b11 + a22 * b21, a21 * b12 + a22 * b22, a21 * b13 + a22 * b23)).

Definition matmul_32_23 (a : M32) (b : M23) : M33 :=
  let '((a11, a12), (a21, a22), (a31, a32)) := a in
  let '((b11, b12, b13), (b21, b22, b23)) := b in
  ((a11 * b11 + a12 * b21, a11 * b12 + a12 * b22, a11 * b13 + a12 * b23),
   (a21 * b11 + a22 * b21, a21 * b12 + a22 * b22, a21 * b13 + a22 * b23),
   (a31 * b11 + a32 * b21, a31 * b12 + a32 * b22, a31 * b13 + a32 * b23)).

Definition sub_22 (a b : M22) : M22 :=
  let '((a11, a12), (a21, a22)) := a in
  let '((b11, b12), (b21, b22)) := b in
  ((a11 - b11, a12 - b12), (a21 - b21, a22 - b22)).

Definition sub_32 (a b : M32) : M32 :=
  let '((a11, a12), (a21, a22), (a31, a32)) := a in
  let '((b11, b12), (b21, b22), (b31, b32)) := b in
  ((a11 - b11, a12 - b12), (a21 - b21, a22 - b22), (a31 - b31, a32 - b32)).

(** Modelled from the spec: [gs.einsum("...bii->...b", _)] of the
    backend, on one matrix: the trace. *)
Definition trace_22 (a : M22) : R :=
  let '((a11, _), (_, a22)) := a in a11 + a22.

Definition trace_33 (a : M33) : R :=
  let '((a11, _, _), (_, a22, _), (_, _, a33)) := a in a11 + a22 + a33.

(** Modelled from the spec: [gs.linalg.det] of the backend on a 2x2
    matrix. *)
Definition det (a : M22) : R :=
  let '((a11, a12), (a21, a22)) := a in a11 * a22 - a12 * a21.

(** Modelled from the spec: [gs.linalg.inv] of the backend on a 2x2
    matrix; a singular matrix raises. *)
Definition inv (a : M22) : option M22 :=
  let '((a11, a12), (a21, a22)) := a in
  if decide (det a = 0) then None
  else Some ((a22 / det a, - a12 / det a), (- a21 / det a, a11 / det a)).

(** Modelled from the spec: [gs.scatter_add(input, dim=-1, index, src)] of
    the backend on one-axis arrays: [input[index[k]] += src[k]] for every
    position [k], repeated indices accumulating; an index outside [input]
    raises. *)
Fixpoint scatter_add (input : list R) (index : list nat) (src : list R)
  : option (list R) :=
  match index, src with
  | i :: index', s :: src' =>
      x ← input !! i; scatter_add (<[i := x + s]> input) index' src'
  | _, _ => Some input
  end.

(** Modelled from the spec: an elementwise binary operation of the
    backend ([+], [-], [*], [einsum]) on two arrays that meet along the
    vertex axis; sizes that differ raise. The backend would broadcast an
    axis of size one against a longer one, which two arrays of shape
    [[n_vertices, 3]] never ask for. *)
Definition elementwise {A B C} (f : A → B → C) (l1 : list A) (l2 : list B)
  : option (list C) :=
  if decide (length l1 = length l2) then Some (zip_with f l1 l2) else None.

End Backend.

(** ** DiscreteSurfaces *)
Module DiscreteSurfaces.
Import Backend.

(** A surface (a point of the manifold) and a tangent vector both have
    shape [[n_vertices, 3]]. *)
Abbreviation Surface := (list V3).

(** A row of the triangulation: the three vertex indices of a face. *)
Abbreviation Face := (nat * nat * nat)%type.

Section Space.
(** [self.faces], fixed at construction. *)
Variable faces : list Face.

Definition n_faces : nat := length faces.

(** [reshape(self.faces, (-1,))]. *)
Definition faces_flat : list nat :=
  flat_map (λ '(i0, i1, i2), [i0; i1; i2]) faces.

(** [int(gs.amax(self.faces) + 1)], for a triangulation with at least
    one face. *)
Definition n_vertices : nat := S (foldr Nat.max 0%nat faces_flat).

(** [belongs]: the trailing shape of the point is [[n_vertices, 3]]. *)
Definition belongs (point : Surface) : bool :=
  bool_decide (length point = n_vertices).

(** [_vertices]: the array [point[faces]], one triple of vertex
    coordinates per face; [vertex_0], [vertex_1], [vertex_2] are its
    three components. *)
Definition _vertices (point : Surface) : option (list (V3 * V3 * V3)) :=
  mapM (λ '(i0, i1, i2),
          vertex_0 ← point !! i0;
          vertex_1 ← point !! i1;
          vertex_2 ← point !! i2;
          Some (vertex_0, vertex_1, vertex_2)) faces.

(** The product under the square root of Heron's formula, on one
    face. *)
Definition heron_product (face_coordinates : V3 * V3 * V3) : R :=
  let '(vertex_0, vertex_1, vertex_2) := face_coordinates in
  let len_edge_12 := norm (sub3 vertex_1 vertex_2) in
  let len_edge_02 := norm (sub3 vertex_0 vertex_2) in
  let len_edge_01 := norm (sub3 vertex_0 vertex_1) in
  let half_perimeter := 0.5 * (len_edge_12 + len_edge_02 + len_edge_01) in
  half_perimeter
  * (half_perimeter - len_edge_12)
  * (half_perimeter - len_edge_02)
  * (half_perimeter - len_edge_01).

(** [_triangle_areas], on one face. *)
Definition triangle_area (face_coordinates : V3 * V3 * V3) : R :=
  sqrt (clip_min (heron_product face_coordinates) 1e-6).

Definition _triangle_areas (point : Surface) : option (list R) :=
  face_coordinates ← _vertices point;
  Some (fmap (M:=list) triangle_area face_coordinates).

(** [vertex_areas]. [val] stacks three copies of the area array one
    after the other, then flattens. *)
Definition vertex_areas (point : Surface) : option (list R) :=
  let n_vertices := length point in
  area ← _triangle_areas point;
  let id_vertices := faces_flat in
  let val := concat (replicate 3 area) in
  let incident_areas := replicate n_vertices 0 in
  incident_areas ← scatter_add incident_areas id_vertices val;
  Some (fmap (M:=list) (λ a, 2 * a / 3.0) incident_areas).

(** [normals], on one face and on the surface. *)
Definition normal (face_coordinates : V3 * V3 * V3) : V3 :=
  let '(vertex_0, vertex_1, vertex_2) := face_coordinates in
  scal3 0.5 (cross (sub3 vertex_1 vertex_0) (sub3 vertex_2 vertex_0)).

Definition normals (point : Surface) : option (list V3) :=
  face_coordinates ← _vertices point;
  Some (fmap (M:=list) normal face_coordinates).

(** [surface_one_forms]. *)
Definition one_form (face_coordinates : V3 * V3 * V3) : M23 :=
  let '(vertex_0, vertex_1, vertex_2) := face_coordinates in
  (sub3 vertex_1 vertex_0, sub3 vertex_2 vertex_0).

Definition surface_one_forms (point : Surface) : option (list M23) :=
  face_coordinates ← _vertices point;
  Some (fmap (M:=list) one_form face_coordinates).

(** [_surface_metric_matrices_from_one_forms]. *)
Definition metric_matrix (one_form : M23) : M22 :=
  matmul_23_32 one_form (transpose_23 one_form).

Definition _surface_metric_matrices_from_one_forms (one_forms : list M23)
  : list M22 :=
  metric_matrix <$> one_forms.

(** [surface_metric_matrices]. *)
Definition surface_metric_matrices (point : Surface) : option (list M22) :=
  one_forms ← surface_one_forms point;
  Some (_surface_metric_matrices_from_one_forms one_forms).

(** [face_areas]. The determinant is the exact one, which is never
    negative; in floating point the determinant of a degenerate face can
    round below zero, where [gs.sqrt] returns [NaN]. Statements about the
    value of a face area assume a face that is not degenerate. *)
Definition face_areas (point : Surface) : option (list R) :=
  surface_metrics_bp ← surface_metric_matrices point;
  Some (fmap (M:=list) (λ m, sqrt (det m)) surface_metrics_bp).

(** The closure returned by [laplacian]: the values it captures from
    the enclosing call. *)
Record LaplacianAt : Type := {
  lap_n_vertices : nat;
  lap_id_vertices : list nat * list nat;
  lap_cot_flatten : list R
}.

(** The face area as [laplacian] computes it. *)
Definition laplacian_area (face_coordinates : V3 * V3 * V3) : R :=
  let '(vertex_0, vertex_1, vertex_2) := face_coordinates in
  let len_edge_12 := norm (sub3 vertex_1 vertex_2) in
  let len_edge_02 := norm (sub3 vertex_0 vertex_2) in
  let len_edge_01 := norm (sub3 vertex_0 vertex_1) in
  let half_perimeter := 0.5 * (len_edge_12 + len_edge_02 + len_edge_01) in
  sqrt
    (clip_min
       (half_perimeter
        * (half_perimeter - len_edge_12)
        * (half_perimeter - len_edge_02)
        * (half_perimeter - len_edge_01))
       1e-6).

(** The row [[cot_12, cot_02, cot_01]] of one face, after [cot /= 2.0]. *)
Definition cot (face_coordinates : V3 * V3 * V3) : list R :=
  let '(vertex_0, vertex_1, vertex_2) := face_coordinates in
  let len_edge_12 := norm (sub3 vertex_1 vertex_2) in
  let len_edge_02 := norm (sub3 vertex_0 vertex_2) in
  let len_edge_01 := norm (sub3 vertex_0 vertex_1) in
  let area := laplacian_area face_coordinates in
  let sq_len_edge_12 := len_edge_12 * len_edge_12 in
  let sq_len_edge_02 := len_edge_02 * len_edge_02 in
  let sq_len_edge_01 := len_edge_01 * len_edge_01 in
  let cot_12 := (sq_len_edge_02 + sq_len_edge_01 - sq_len_edge_12) / area in
  let cot_02 := (sq_len_edge_12 + sq_len_edge_01 - sq_len_edge_02) / area in
  let cot_01 := (sq_len_edge_12 + sq_len_edge_02 - sq_len_edge_01) / area in
  [cot_12 / 2.0; cot_02 / 2.0; cot_01 / 2.0].

(** [self.faces[:, [1, 2, 0]]] and [self.faces[:, [2, 0, 1]]], each
    reshaped to one axis of [n_faces * 3] entries. *)
Definition id_vertices_120 : list nat :=
  flat_map (λ '(i0, i1, i2), [i1; i2; i0]) faces.

Definition id_vertices_201 : list nat :=
  flat_map (λ '(i0, i1, i2), [i2; i0; i1]) faces.

(** [laplacian]: the part run before the closure is returned. *)
Definition laplacian (point : Surface) : option LaplacianAt :=
  let n_vertices := length point in
  face_coordinates ← _vertices point;
  let id_vertices := (id_vertices_120, id_vertices_201) in
  let cot_flatten := flat_map cot face_coordinates in
  Some {| lap_n_vertices := n_vertices;
          lap_id_vertices := id_vertices;
          lap_cot_flatten := cot_flatten |}.

(** [array[index]] along the vertex axis. *)
Definition take {A} (array : list A) (index : list nat) : option (list A) :=
  mapM (λ i, array !! i) index.

(** [array[:, i_dim]] and the array with the three given columns. *)
Definition column (i_dim : nat) (array : list V3) : list R :=
  fmap (M:=list)
    (λ '(x0, x1, x2),
       match i_dim with O => x0 | S O => x1 | _ => x2 end) array.

Definition of_columns (c0 c1 c2 : list R) : list V3 :=
  zip_with (λ '(x0, x1) x2, (x0, x1, x2)) (zip c0 c1) c2.

(** The loop [for i_dim in range(3)] of [_laplacian]: pass [i_dim]
    replaces column [i_dim] of [input] by its [scatter_add] with the
    same column of [src]. *)
Definition scatter_add_columns (input : list V3) (index : list nat)
    (src : list V3) : option (list V3) :=
  c0 ← scatter_add (column 0 input) index (column 0 src);
  c1 ← scatter_add (column 1 input) index (column 1 src);
  c2 ← scatter_add (column 2 input) index (column 2 src);
  Some (of_columns c0 c1 c2).

(** [_laplacian], the closure body. *)
Definition _laplacian (L : LaplacianAt) (tangent_vec : Surface)
  : option Surface :=
  let id_vertices := lap_id_vertices L in
  tangent_vec_0 ← take tangent_vec (fst id_vertices);
  tangent_vec_1 ← take tangent_vec (snd id_vertices);
  let tangent_vec_diff := zip_with sub3 tangent_vec_0 tangent_vec_1 in
  let values := zip_with scal3 (lap_cot_flatten L) tangent_vec_diff in
  let laplacian_at_tangent_vec := replicate (lap_n_vertices L) zero3 in
  let id_vertices_201 := snd id_vertices in
  scatter_add_columns laplacian_at_tangent_vec id_vertices_201 values.

End Space.
End DiscreteSurfaces.

(** ** ElasticMetric *)
Module ElasticMetric.
Import Backend DiscreteSurfaces.

(** The six weights set by [__init__]. *)
Record Weights : Type := {
  a0 : R; a1 : R; b1 : R; c1 : R; d1 : R; a2 : R
}.

Section Metric.
(** [self._space.faces] and the weights of [self]. *)
Variable faces : list Face.
Variable self : Weights.

(** [_inner_product_a0]. *)
Definition _inner_product_a0 (tangent_vec_a tangent_vec_b : Surface)
    (vertex_areas_bp : list R) : option R :=
  dots ← elementwise dot3 tangent_vec_a tangent_vec_b;
  weighted ← elementwise Rmult vertex_areas_bp dots;
  Some (a0 self * sum weighted).

(** [_inner_product_a1]. The per-face arrays passed to the four
    first-order terms all come from the same triangulation and have
    [n_faces] entries. *)
Definition _inner_product_a1 (ginvdga ginvdgb : list M22)
    (areas_bp : list R) : R :=
  a1 self
  * sum (zip_with Rmult
           (trace_22 <$> zip_with matmul_22_22 ginvdga ginvdgb)
           areas_bp).

(** [_inner_product_b1]. *)
Definition _inner_product_b1 (ginvdga ginvdgb : list M22)
    (areas_bp : list R) : R :=
  b1 self
  * sum (zip_with Rmult
           (zip_with Rmult (trace_22 <$> ginvdga) (trace_22 <$> ginvdgb))
           areas_bp).

(** [_inner_product_c1]. *)
Definition _inner_product_c1 (point_a point_b : Surface)
    (normals_bp : list V3) (areas_bp : list R) : option R :=
  normals_a ← normals faces point_a;
  let dna := zip_with sub3 normals_a normals_bp in
  normals_b ← normals faces point_b;
  let dnb := zip_with sub3 normals_b normals_bp in
  Some (c1 self * sum (zip_with Rmult (zip_with dot3 dna dnb) areas_bp)).

(** [xa_0] (and [xb_0]) of [_inner_product_d1], on one face. *)
Definition d1_projection (one_form_x one_form_bp : M23)
    (inv_surface_metric_bp : M22) : M32 :=
  let one_form_bp_t := transpose_23 one_form_bp in
  let one_form_x_t := transpose_23 one_form_x in
  let x := sub_32 one_form_x_t one_form_bp_t in
  matmul_32_22
    (matmul_32_22 one_form_bp_t inv_surface_metric_bp)
    (sub_22 (matmul_23_32 (transpose_32 x) one_form_bp_t)
            (matmul_23_32 one_form_bp x)).

(** The trace under the sum of [_inner_product_d1], on one face. *)
Definition d1_trace (one_form_a one_form_b one_form_bp : M23)
    (inv_surface_metric_bp : M22) : R :=
  let xa_0 := d1_projection one_form_a one_form_bp inv_surface_metric_bp in
  let xb_0 := d1_projection one_form_b one_form_bp inv_surface_metric_bp in
  trace_33
    (matmul_32_23 xa_0
       (matmul_22_23 inv_surface_metric_bp (transpose_32 xb_0))).

(** [_inner_product_d1]. *)
Definition _inner_product_d1 (one_forms_a one_forms_b one_forms_bp : list M23)
    (areas_bp : list R) (inv_surface_metrics_bp : list M22) : R :=
  d1 self
  * sum (zip_with Rmult
           (zip_with (λ '(one_form_a, one_form_b) '(one_form_bp, ginv),
                        d1_trace one_form_a one_form_b one_form_bp ginv)
              (zip one_forms_a one_forms_b)
              (zip one_forms_bp inv_surface_metrics_bp))
           areas_bp).

(** [_inner_product_a2]. The quotient by [vertex_areas_bp] is a division
    by zero at a vertex that occurs in no face, where the code's entry is
    [NaN] or [inf]; statements about the value of this term on a single
    input assume non-zero vertex areas. *)
Definition _inner_product_a2 (tangent_vec_a tangent_vec_b base_point : Surface)
    (vertex_areas_bp : list R) : option R :=
  laplacian_at_base_point ← laplacian faces base_point;
  laplacian_a ← _laplacian laplacian_at_base_point tangent_vec_a;
  laplacian_b ← _laplacian laplacian_at_base_point tangent_vec_b;
  Some (a2 self
        * sum (zip_with Rdiv (zip_with dot3 laplacian_a laplacian_b)
                 vertex_areas_bp)).

(** The block of [inner_product] under
    [if self.b1 > 0 or self.a1 > 0]: the pair
    [(inner_prod_a1, inner_prod_b1)]. *)
Definition inner_product_a1_b1 (one_forms_a one_forms_b : list M23)
    (surface_metrics_bp ginv_bp : list M22) (areas_bp : list R) : R * R :=
  if bool_decide (b1 self > 0) || bool_decide (a1 self > 0) then
    let dga :=
      zip_with sub_22
        (fmap (M:=list) (λ m, matmul_23_32 m (transpose_23 m)) one_forms_a)
        surface_metrics_bp in
    let dgb :=
      zip_with sub_22
        (fmap (M:=list) (λ m, matmul_23_32 m (transpose_23 m)) one_forms_b)
        surface_metrics_bp in
    let ginvdga := zip_with matmul_22_22 ginv_bp dga in
    let ginvdgb := zip_with matmul_22_22 ginv_bp dgb in
    (if bool_decide (a1 self > 0)
     then _inner_product_a1 ginvdga ginvdgb areas_bp else 0,
     if bool_decide (b1 self > 0)
     then _inner_product_b1 ginvdga ginvdgb areas_bp else 0)
  else (0, 0).

(** The block under [if self.d1 > 0 or self.b1 > 0 or self.a1 > 0]: the
    triple [(inner_prod_a1, inner_prod_b1, inner_prod_d1)]. *)
Definition inner_product_a1_b1_d1 (point_a point_b : Surface)
    (one_forms_bp : list M23) (surface_metrics_bp : list M22)
    (areas_bp : list R) : option (R * R * R) :=
  if bool_decide (d1 self > 0) || bool_decide (b1 self > 0)
     || bool_decide (a1 self > 0) then
    ginv_bp ← mapM inv surface_metrics_bp;
    one_forms_a ← surface_one_forms faces point_a;
    one_forms_b ← surface_one_forms faces point_b;
    let inner_prod_d1 :=
      if bool_decide (d1 self > 0)
      then _inner_product_d1 one_forms_a one_forms_b one_forms_bp
             areas_bp ginv_bp
      else 0 in
    let '(inner_prod_a1, inner_prod_b1) :=
      inner_product_a1_b1 one_forms_a one_forms_b surface_metrics_bp
        ginv_bp areas_bp in
    Some (inner_prod_a1, inner_prod_b1, inner_prod_d1)
  else Some (0, 0, 0).

(** The block under [if self.a0 > 0 or self.a2 > 0]: the pair
    [(inner_prod_a0, inner_prod_a2)]. *)
Definition inner_product_a0_a2 (tangent_vec_a tangent_vec_b base_point : Surface)
  : option (R * R) :=
  if bool_decide (a0 self > 0) || bool_decide (a2 self > 0) then
    vertex_areas_bp ← vertex_areas faces base_point;
    inner_prod_a0 ←
      (if bool_decide (a0 self > 0)
       then _inner_product_a0 tangent_vec_a tangent_vec_b vertex_areas_bp
       else Some 0);
    inner_prod_a2 ←
      (if bool_decide (a2 self > 0)
       then _inner_product_a2 tangent_vec_a tangent_vec_b base_point
              vertex_areas_bp
       else Some 0);
    Some (inner_prod_a0, inner_prod_a2)
  else Some (0, 0).

(** The block under
    [if self.a1 > 0 or self.b1 > 0 or self.c1 > 0 or self.b1 > 0]: the
    four first-order terms
    [(inner_prod_a1, inner_prod_b1, inner_prod_c1, inner_prod_d1)]. *)
Definition inner_product_first_order
    (tangent_vec_a tangent_vec_b base_point : Surface)
  : option (R * R * R * R) :=
  if bool_decide (a1 self > 0) || bool_decide (b1 self > 0)
     || bool_decide (c1 self > 0) || bool_decide (b1 self > 0) then
    one_forms_bp ← surface_one_forms faces base_point;
    let surface_metrics_bp :=
      _surface_metric_matrices_from_one_forms one_forms_bp in
    let areas_bp := fmap (M:=list) (λ m, sqrt (det m)) surface_metrics_bp in
    point_a ← elementwise add3 base_point tangent_vec_a;
    point_b ← elementwise add3 base_point tangent_vec_b;
    inner_prod_c1 ←
      (if bool_decide (c1 self > 0) then
         normals_bp ← normals faces base_point;
         _inner_product_c1 point_a point_b normals_bp areas_bp
       else Some 0);
    '(inner_prod_a1, inner_prod_b1, inner_prod_d1) ←
      inner_product_a1_b1_d1 point_a point_b one_forms_bp
        surface_metrics_bp areas_bp;
    Some (inner_prod_a1, inner_prod_b1, inner_prod_c1, inner_prod_d1)
  else Some (0, 0, 0, 0).

(** [inner_product]. Every term starts at [0.0] and is overwritten only
    inside its guard. *)
Definition inner_product (tangent_vec_a tangent_vec_b base_point : Surface)
  : option R :=
  '(inner_prod_a0, inner_prod_a2) ←
    inner_product_a0_a2 tangent_vec_a tangent_vec_b base_point;
  '(inner_prod_a1, inner_prod_b1, inner_prod_c1, inner_prod_d1) ←
    inner_product_first_order tangent_vec_a tangent_vec_b base_point;
  Some (inner_prod_a0
        + inner_prod_a1
        + inner_prod_a2
        + inner_prod_b1
        + inner_prod_c1
        + inner_prod_d1).

End Metric.
End ElasticMetric.

(** ** DiscreteSurfacesExpSolver *)
Module DiscreteSurfacesExpSolver.
Import Backend DiscreteSurfaces.

(** An argument of [discrete_geodesic_ivp]: one surface-shaped array
    ([ndim = 2]) or a batch of them ([ndim = 3]). *)
Inductive Arr : Type :=
| Single (a : Surface)
| Batch (b : list Surface).

Definition ndim (x : Arr) : nat :=
  match x with Single _ => 2%nat | Batch _ => 3%nat end.

(** The result of [discrete_geodesic_ivp]: one stacked geodesic, or one
    per batch element. *)
Inductive Geod : Type :=
| GeodSingle (geod : list Surface)
| GeodBatch (geods : list (list Surface)).

(** Modelled from the spec: [gs.flatten] of the backend on a
    surface-shaped array. *)
Definition flatten (a : Surface) : list R :=
  flat_map (λ '(x0, x1, x2), [x0; x1; x2]) a.

(** Modelled from the spec: the rows of three consecutive entries of a
    flat array, as [gs.reshape(_, (_, 3))] forms them. *)
Fixpoint rows (flat : list R) : option Surface :=
  match flat with
  | [] => Some []
  | x0 :: x1 :: x2 :: flat' => r ← rows flat'; Some ((x0, x1, x2) :: r)
  | _ => None
  end.

(** Modelled from the spec: [gs.stack(arrays, axis=0)] of the backend;
    the arrays must be at least one and of one shape. *)
Definition stack (arrays : list Surface) : option (list Surface) :=
  match arrays with
  | [] => None
  | a :: _ =>
      if bool_decide (Forall (λ a', length a' = length a) arrays)
      then Some arrays else None
  end.

Section Solver.
(** [self._space.faces], and [self._space.metric] given by its inner
    product and squared norm. *)
Variable faces : list Face.
Variable metric_inner_product : Surface → Surface → Surface → option R.
Variable metric_squared_norm : Surface → Surface → option R.
(** [self.n_steps]. *)
Variable n_steps : Z.
(** [gs.autodiff.value_and_grad(f, point_ndims=2)(x)]. *)
Variable value_and_grad :
  (Surface → option R) → Surface → option (R * Surface).
(** [self.optimizer.minimize(objective, x0).x]. *)
Variable minimize : (list R → option R) → list R → option (list R).

(** Modelled from the spec: [gs.reshape(_, self._space.shape)] of the
    backend; the size must be [n_vertices * 3]. *)
Definition reshape (flat : list R) : option Surface :=
  if decide (length flat = (n_vertices faces * 3)%nat) then rows flat
  else None.

(** [_objective]: the closure [energy_objective]. *)
Definition _objective (current_point next_point : Surface)
    (flat_next_next_point : list R) : option R :=
  let zeros := replicate (length current_point) zero3 in
  next_next_point ← reshape flat_next_next_point;
  current_to_next ← elementwise sub3 next_point current_point;
  next_to_next_next ← elementwise sub3 next_next_point next_point;
  let _inner_product_with_current_to_next tangent_vec :=
    metric_inner_product current_to_next tangent_vec current_point in
  let _inner_product_with_next_to_next_next tangent_vec :=
    metric_inner_product next_to_next_next tangent_vec next_point in
  let _norm base_point :=
    metric_squared_norm next_to_next_next base_point in
  '(_, energy_1) ← value_and_grad _inner_product_with_current_to_next zeros;
  '(_, energy_2) ← value_and_grad _inner_product_with_next_to_next_next zeros;
  '(_, energy_3) ← value_and_grad _norm next_point;
  diff ← elementwise sub3 (scal3 2 <$> energy_1) (scal3 2 <$> energy_2);
  energy_tot ← elementwise add3 diff energy_3;
  Some (sum (fmap (M:=list) (λ e, e * e) (flatten energy_tot))).

(** [_stepforward]. *)
Definition _stepforward (current_point next_point : Surface)
  : option Surface :=
  step ← elementwise sub3 next_point current_point;
  initial_next_next_point ← elementwise add3 (scal3 2 <$> step) current_point;
  let flat_initial_next_next_point := flatten initial_next_next_point in
  let energy_objective := _objective current_point next_point in
  sol_x ← minimize energy_objective flat_initial_next_next_point;
  reshape sol_x.

(** The loop [for _ in range(2, self.n_steps)] run [k] more times on the
    list [geod]; [geod[-2]] and [geod[-1]] are read from its end. *)
Fixpoint geod_loop (k : nat) (geod : list Surface)
  : option (list Surface) :=
  match k with
  | O => Some geod
  | S k' =>
      match reverse geod with
      | last :: before_last :: _ =>
          next_next_point ← _stepforward before_last last;
          geod_loop k' (geod ++ [next_next_point])
      | _ => None
      end
  end.

(** [_discrete_geodesic_ivp_single]. The source has no guard on
    [n_steps]: for [n_steps = 1] the quotient [tangent_vec / (n_steps - 1)]
    is a division by zero, whose entries are [inf] or [NaN] in the code and
    have no counterpart in [R]; only the shape of that frame is modelled,
    and statements about its value assume [n_steps <> 1]. *)
Definition _discrete_geodesic_ivp_single (tangent_vec base_point : Surface)
  : option (list Surface) :=
  next_point ←
    elementwise add3 base_point
      ((λ t, div3 t (IZR (n_steps - 1))) <$> tangent_vec);
  let geod := [base_point; next_point] in
  geod ← geod_loop (Z.to_nat (n_steps - 2)) geod;
  stack geod.

(** Modelled from the spec: [gs.broadcast_arrays] of the backend on
    arguments whose [ndim] differ: the single array is repeated along the
    batch axis of the other. *)
Definition broadcast_arrays (x y : Arr) : Arr * Arr :=
  match x, y with
  | Single a, Batch b => (Batch (replicate (length b) a), Batch b)
  | Batch a, Single b => (Batch a, Batch (replicate (length a) b))
  | _, _ => (x, y)
  end.

(** [discrete_geodesic_ivp]. *)
Definition discrete_geodesic_ivp (tangent_vec base_point : Arr)
  : option Geod :=
  let '(tangent_vec, base_point) :=
    if bool_decide (ndim tangent_vec ≠ ndim base_point)
    then broadcast_arrays tangent_vec base_point
    else (tangent_vec, base_point) in
  match tangent_vec, base_point with
  | Single tangent_vec, Single base_point =>
      GeodSingle <$> _discrete_geodesic_ivp_single tangent_vec base_point
  | Batch tangent_vec, Batch base_point =>
      geods ← mapM (λ '(tangent_vec_, base_point_),
                      _discrete_geodesic_ivp_single tangent_vec_ base_point_)
                (zip tangent_vec base_point);
      match geods with
      | [] => None
      | _ => Some (GeodBatch geods)
      end
  | _, _ => None
  end.

(** [exp]: the last frame [discr_geod_path[..., -1, :, :]] of the
    geodesic, for every batch element. *)
Definition exp (tangent_vec base_point : Arr) : option Arr :=
  discr_geod_path ← discrete_geodesic_ivp tangent_vec base_point;
  match discr_geod_path with
  | GeodSingle geod => Single <$> last geod
  | GeodBatch geods => Batch <$> mapM last geods
  end.

End Solver.
End DiscreteSurfacesExpSolver.

(** ** Sample meshes and metrics *)
Module Examples.
Import Backend DiscreteSurfaces ElasticMetric.

(** One triangle. *)
Definition one_face : list Face := [(0, 1, 2)%nat].

(** The right triangle with unit legs, and the one with legs 3 and 4. *)
Definition unit_triangle : Surface := [(0, 0, 0); (1, 0, 0); (0, 1, 0)].
Definition triangle_345 : Surface := [(0, 0, 0); (3, 0, 0); (0, 4, 0)].

(** A degenerate face: three vertices on one line. *)
Definition collinear : Surface := [(0, 0, 0); (1, 0, 0); (2, 0, 0)].

(** Two triangles sharing an edge, on the rectangle with sides 3 and 4. *)
Definition two_faces : list Face := [(0, 1, 2)%nat; (1, 3, 2)%nat].
Definition rectangle_34 : Surface :=
  [(0, 0, 0); (3, 0, 0); (0, 4, 0); (3, 4, 0)].

(** Tangent vectors on one triangle: a shear of vertex 1 and a uniform
    stretch of the two legs. *)
Definition shear : Surface := [(0, 0, 0); (0, 1, 0); (0, 0, 0)].
Definition stretch : Surface := [(0, 0, 0); (1, 0, 0); (0, 1, 0)].

Definition weights (a0 a1 b1 c1 d1 a2 : R) : Weights :=
  {| a0 := a0; a1 := a1; b1 := b1; c1 := c1; d1 := d1; a2 := a2 |}.

(** Collaborators of the geodesic solver that never fail: a gradient
    that is zero everywhere and a minimizer that returns its initial
    guess. *)
Definition zero_grad (f : Surface → option R) (x : Surface)
  : option (R * Surface) :=
  Some (0, replicate (length x) zero3).

Definition keep_guess (objective : list R → option R) (x0 : list R)
  : option (list R) :=
  Some x0.

End Examples.

(** ** Rigid motions of a surface *)
Module Motions.
Import Backend DiscreteSurfaces.

(** [point + t] for a row [t] of shape [[3]]: every vertex moved by [t]. *)
Definition translate (t : V3) (point : Surface) : Surface :=
  (λ vertex, add3 vertex t) <$> point.

(** The same on the vertices of one face. *)
Definition translate_face (t : V3) (face_coordinates : V3 * V3 * V3)
  : V3 * V3 * V3 :=
  let '(vertex_0, vertex_1, vertex_2) := face_coordinates in
  (add3 vertex_0 t, add3 vertex_1 t, add3 vertex_2 t).

End Motions.

(** ** The face areas in binary64

    [_triangle_areas] and the area inside [laplacian] once more, with the
    array entries as IEEE 754 binary64 numbers (NumPy's [float64]) and the
    operations in the order of the source, so that overflow and [NaN] can
    be observed. *)
Module Float64.
Import PrimFloat.
Local Open Scope float_scope.

Abbreviation V3 := (float * float * float)%type.

Definition sub3 (a b : V3) : V3 :=
  let '(a1, a2, a3) := a in let '(b1, b2, b3) := b in
  (a1 - b1, a2 - b2, a3 - b3).

(** Modelled from the spec: [gs.linalg.norm(_, axis=-1)] of the backend,
    the square root of the sum of the squares of a row. *)
Definition norm (a : V3) : float :=
  let '(a1, a2, a3) := a in sqrt (a1 * a1 + a2 * a2 + a3 * a3).

(** Modelled from the spec: [ndarray.clip(min=m)] of the backend, the
    larger of the entry and [m]; a [NaN] entry stays [NaN]. *)
Definition clip_min (x m : float) : float :=
  if is_nan x then x else if x <? m then m else x.

(** The floor [1e-6] of both area computations. *)
#[warnings="-inexact-float"] Definition floor : float := 1e-6.

Section Space.
Variable faces : list DiscreteSurfaces.Face.

(** [_vertices]. *)
Definition _vertices (point : list V3) : option (list (V3 * V3 * V3)) :=
  mapM (λ '(i0, i1, i2),
          vertex_0 ← point !! i0;
          vertex_1 ← point !! i1;
          vertex_2 ← point !! i2;
          Some (vertex_0, vertex_1, vertex_2)) faces.

(** [_triangle_areas], on one face and on the surface. *)
Definition triangle_area (face_coordinates : V3 * V3 * V3) : float :=
  let '(vertex_0, vertex_1, vertex_2) := face_coordinates in
  let len_edge_12 := norm (sub3 vertex_1 vertex_2) in
  let len_edge_02 := norm (sub3 vertex_0 vertex_2) in
  let len_edge_01 := norm (sub3 vertex_0 vertex_1) in
  let half_perimeter := 0.5 * (len_edge_12 + len_edge_02 + len_edge_01) in
  sqrt
    (clip_min
       (half_perimeter
        * (half_perimeter - len_edge_12)
        * (half_perimeter - len_edge_02)
        * (half_perimeter - len_edge_01))
       floor).

Definition _triangle_areas (point : list V3) : option (list float) :=
  face_coordinates ← _vertices point;
  Some (fmap (M:=list) triangle_area face_coordinates).

(** The face area as [laplacian] computes it, and the row
    [[cot_12, cot_02, cot_01]] of one face after [cot /= 2.0]. *)
Definition laplacian_area (face_coordinates : V3 * V3 * V3) : float :=
  let '(vertex_0, vertex_1, vertex_2) := face_coordinates in
  let len_edge_12 := norm (sub3 vertex_1 vertex_2) in
  let len_edge_02 := norm (sub3 vertex_0 vertex_2) in
  let len_edge_01 := norm (sub3 vertex_0 vertex_1) in
  let half_perimeter := 0.5 * (len_edge_12 + len_edge_02 + len_edge_01) in
  sqrt
    (clip_min
       (half_perimeter
        * (half_perimeter - len_edge_12)
        * (half_perimeter - len_edge_02)
        * (half_perimeter - len_edge_01))
       floor).

Definition cot (face_coordinates : V3 * V3 * V3) : list float :=
  let '(vertex_0, vertex_1, vertex_2) := face_coordinates in
  let len_edge_12 := norm (sub3 vertex_1 vertex_2) in
  let len_edge_02 := norm (sub3 vertex_0 vertex_2) in
  let len_edge_01 := norm (sub3 vertex_0 vertex_1) in
  let area := laplacian_area face_coordinates in
  let sq_len_edge_12 := len_edge_12 * len_edge_12 in
  let sq_len_edge_02 := len_edge_02 * len_edge_02 in
  let sq_len_edge_01 := len_edge_01 * len_edge_01 in
  let cot_12 := (sq_len_edge_02 + sq_len_edge_01 - sq_len_edge_12) / area in
  let cot_02 := (sq_len_edge_12 + sq_len_edge_01 - sq_len_edge_02) / area in
  let cot_01 := (sq_len_edge_12 + sq_len_edge_02 - sq_len_edge_01) / area in
  [cot_12 / 2.0; cot_02 / 2.0; cot_01 / 2.0].

(** The cotangent weights that [laplacian] captures in [cot_flatten]. *)
Definition laplacian_cot_flatten (point : list V3) : option (list float) :=
  face_coordinates ← _vertices point;
  Some (flat_map cot face_coordinates).

End Space.

(** Sample surfaces: a right triangle with legs 3 and 4, three collinear
    vertices, and a right triangle with legs of length [1e200]. *)
Definition sample_345 : list V3 := [(0, 0, 0); (3, 0, 0); (0, 4, 0)].
Definition sample_collinear : list V3 := [(0, 0, 0); (1, 0, 0); (2, 0, 0)].
#[warnings="-inexact-float"] Definition sample_huge : list V3 :=
  [(0, 0, 0); (1e200, 0, 0); (0, 1e200, 0)].

(** The values the sample surfaces are compared with. *)
Definition six : float := 6.
#[warnings="-inexact-float"] Definition thousandth : float := 0.001.

End Float64.

(** * Properties *)

Import Backend DiscreteSurfaces.

(** ** Arithmetic of the backend operations *)
Section BackendFacts.

(** The decimal literals of the source as fractions. *)
Lemma literal_half : 0.5 = 1 / 2.
Proof. lra. Qed.

Lemma literal_two : 2.0 = 2.
Proof. lra. Qed.

Lemma literal_three : 3.0 = 3.
Proof. lra. Qed.

Lemma V3_eq (x0 x1 x2 y0 y1 y2 : R) :
  x0 = y0 → x1 = y1 → x2 = y2 → (x0, x1, x2) = (y0, y1, y2).
Proof. by intros -> -> ->. Qed.

Lemma sqrt_eq (x y : R) : 0 <= y → x = y * y → sqrt x = y.
Proof. intros Hy ->. by apply sqrt_square. Qed.

Lemma inv_Some (m : M22) :
  det m ≠ 0 →
  inv m = Some ((m.2.2 / det m, - m.1.2 / det m),
                (- m.2.1 / det m, m.1.1 / det m)).
Proof.
  destruct m as [[a11 a12] [a21 a22]]. intros H. unfold inv.
  by rewrite decide_False.
Qed.

Lemma floor_pos : 0 < 1e-6.
Proof. lra. Qed.

Lemma clip_min_ge (x m : R) : m <= clip_min x m.
Proof. apply Rmax_r. Qed.

Lemma clip_min_id (x m : R) : m <= x → clip_min x m = x.
Proof. intros H. unfold clip_min. apply Rmax_left. exact H. Qed.

Lemma sqrt_floor_pos : 0 < sqrt 1e-6.
Proof. apply sqrt_lt_R0, floor_pos. Qed.

Lemma sum_nil : sum [] = 0.
Proof. reflexivity. Qed.

Lemma sum_cons (x : R) (l : list R) : sum (x :: l) = x + sum l.
Proof. reflexivity. Qed.

Lemma sum_app (l1 l2 : list R) : sum (l1 ++ l2) = sum l1 + sum l2.
Proof.
  induction l1 as [|x l1 IH]; simpl.
  - rewrite sum_nil. lra.
  - rewrite !sum_cons, IH. lra.
Qed.

Lemma sum_replicate_0 (n : nat) : sum (replicate n 0) = 0.
Proof. induction n as [|n IH]; simpl; rewrite ?sum_nil, ?sum_cons; lra. Qed.


Lemma sum_fmap_scale (c : R) (l : list R) :
  sum ((λ x, c * x) <$> l) = c * sum l.
Proof.
  induction l as [|x l IH]; csimpl.
  - rewrite sum_nil. lra.
  - rewrite !sum_cons, IH. lra.
Qed.

Lemma sum_fmap_ext {A} (f g : A → R) (l : list A) :
  Forall (λ x, f x = g x) l → sum (f <$> l) = sum (g <$> l).
Proof.
  induction 1 as [|x l Hx _ IH]; csimpl; [reflexivity|].
  rewrite !sum_cons, Hx, IH. reflexivity.
Qed.

Lemma sum_insert (l : list R) (i : nat) (x y : R) :
  l !! i = Some x → sum (<[i := y]> l) = sum l - x + y.
Proof.
  revert i. induction l as [|z l IH]; intros [|i] Hi; simplify_eq/=.
  - rewrite !sum_cons. lra.
  - rewrite !sum_cons, (IH _ Hi). lra.
Qed.

(** What [scatter_add] does to the total, the length and the success. *)
Lemma scatter_add_sum (index : list nat) :
  ∀ (input src out : list R),
    length index = length src →
    scatter_add input index src = Some out →
    sum out = sum input + sum src.
Proof.
  induction index as [|i index IH]; intros input [|s src] out Hlen Hrun;
    simplify_eq/=.
  - rewrite sum_nil. lra.
  - destruct (input !! i) as [x|] eqn:Hx; simplify_eq/=.
    rewrite (IH _ src _ ltac:(lia) Hrun), (sum_insert _ _ _ _ Hx), sum_cons. lra.
Qed.

Lemma scatter_add_length (index : list nat) :
  ∀ (input src out : list R),
    scatter_add input index src = Some out → length out = length input.
Proof.
  induction index as [|i index IH]; intros input [|s src] out Hrun;
    simplify_eq/=; try reflexivity.
  destruct (input !! i) as [x|] eqn:Hx; simplify_eq/=.
  rewrite (IH _ _ _ Hrun). apply length_insert.
Qed.

Lemma scatter_add_is_Some (index : list nat) :
  ∀ (input src : list R),
    Forall (λ i, (i < length input)%nat) index →
    is_Some (scatter_add input index src).
Proof.
  induction index as [|i index IH]; intros input [|s src] Hin; simpl; eauto.
  apply Forall_cons in Hin as [Hi Hin].
  destruct (lookup_lt_is_Some_2 input i Hi) as [x ->]. simpl.
  apply IH. rewrite length_insert. exact Hin.
Qed.

Lemma scatter_add_in_range (index : list nat) :
  ∀ (input src : list R),
    length index = length src →
    is_Some (scatter_add input index src) →
    Forall (λ i, (i < length input)%nat) index.
Proof.
  induction index as [|i index IH]; intros input [|s src] Hlen Hrun;
    simplify_eq/=; [constructor|].
  destruct (input !! i) as [x|] eqn:Hx; simpl in Hrun;
    [|by destruct Hrun].
  constructor; [by eapply lookup_lt_Some|].
  apply IH in Hrun; [|lia]. by rewrite length_insert in Hrun.
Qed.

End BackendFacts.

(** ** Geometry of one face *)
Section FaceGeometry.

Lemma dot3_self_nonneg (a : V3) : 0 <= dot3 a a.
Proof. destruct a as [[a1 a2] a3]. unfold dot3. nra. Qed.

Lemma norm_sqrt_dot3 (a : V3) : norm a = sqrt (dot3 a a).
Proof. destruct a as [[a1 a2] a3]. reflexivity. Qed.

Lemma norm_sq (a : V3) : norm a * norm a = dot3 a a.
Proof. rewrite norm_sqrt_dot3. apply sqrt_sqrt, dot3_self_nonneg. Qed.

(** Heron's product in terms of the squared side lengths. *)
Lemma heron_squares (a b c : R) :
  let half_perimeter := 0.5 * (a + b + c) in
  half_perimeter * (half_perimeter - a) * (half_perimeter - b)
  * (half_perimeter - c)
  = (2 * (a * a) * (b * b) + 2 * (a * a) * (c * c) + 2 * (b * b) * (c * c)
     - (a * a) * (a * a) - (b * b) * (b * b) - (c * c) * (c * c)) / 16.
Proof. intros half_perimeter. subst half_perimeter. rewrite literal_half. field. Qed.

(** Heron's product is a quarter of the Gram determinant of the two edge
    vectors at [vertex_0]. *)
Lemma heron_product_det (fc : V3 * V3 * V3) :
  heron_product fc = det (metric_matrix (one_form fc)) / 4.
Proof.
  destruct fc as [[v0 v1] v2]. unfold heron_product.
  rewrite heron_squares, !norm_sq.
  destruct v0 as [[x0 y0] z0], v1 as [[x1 y1] z1], v2 as [[x2 y2] z2].
  unfold one_form, metric_matrix, sub3, dot3; simpl. field.
Qed.

(** Lagrange's identity for the cross product. *)
Lemma cross_dot3_self (e1 e2 : V3) :
  dot3 (cross e1 e2) (cross e1 e2) = det (metric_matrix (e1, e2)).
Proof.
  destruct e1 as [[x1 y1] z1], e2 as [[x2 y2] z2].
  unfold cross, dot3, metric_matrix; simpl. ring.
Qed.

Lemma det_metric_matrix_nonneg (m : M23) : 0 <= det (metric_matrix m).
Proof.
  destruct m as [e1 e2]. rewrite <- cross_dot3_self. apply dot3_self_nonneg.
Qed.

Lemma heron_product_nonneg (fc : V3 * V3 * V3) : 0 <= heron_product fc.
Proof.
  rewrite heron_product_det.
  pose proof (det_metric_matrix_nonneg (one_form fc)). lra.
Qed.


Lemma triangle_area_above_floor (fc : V3 * V3 * V3) :
  1e-6 <= heron_product fc → triangle_area fc = sqrt (heron_product fc).
Proof. intros H. unfold triangle_area. by rewrite clip_min_id. Qed.

Lemma scal3_dot3 (c : R) (a b : V3) : dot3 (scal3 c a) b = c * dot3 a b.
Proof.
  destruct a as [[a1 a2] a3], b as [[b1 b2] b3]. unfold scal3, dot3. ring.
Qed.

Lemma norm_normal (fc : V3 * V3 * V3) :
  norm (normal fc) = sqrt (heron_product fc).
Proof.
  rewrite norm_sqrt_dot3, heron_product_det. f_equal.
  destruct fc as [[v0 v1] v2]. unfold normal, one_form.
  rewrite <- cross_dot3_self.
  destruct (cross (sub3 v1 v0) (sub3 v2 v0)) as [[c1 c2] c3].
  unfold scal3, dot3. rewrite literal_half. field.
Qed.

Lemma cross_orthogonal (e1 e2 : V3) :
  dot3 (cross e1 e2) e1 = 0 ∧ dot3 (cross e1 e2) e2 = 0.
Proof.
  destruct e1 as [[x1 y1] z1], e2 as [[x2 y2] z2].
  unfold cross, dot3. split; ring.
Qed.

Lemma triangle_area_floor (fc : V3 * V3 * V3) :
  sqrt 1e-6 <= triangle_area fc ∧ 0 < triangle_area fc.
Proof.
  assert (sqrt 1e-6 <= triangle_area fc) as H.
  { unfold triangle_area. apply sqrt_le_1_alt, clip_min_ge. }
  split; [exact H|]. pose proof sqrt_floor_pos. lra.
Qed.

Lemma laplacian_area_triangle_area (fc : V3 * V3 * V3) :
  laplacian_area fc = triangle_area fc.
Proof. destruct fc as [[v0 v1] v2]. reflexivity. Qed.

End FaceGeometry.

(** ** Reading the vertices of the faces *)
Section Vertices.
Variable faces : list Face.

Lemma length_faces_flat : length (faces_flat faces) = (3 * length faces)%nat.
Proof.
  unfold faces_flat. induction faces as [|[[i0 i1] i2] l IH]; simpl; lia.
Qed.

Lemma faces_flat_lookup (f i0 i1 i2 : nat) :
  faces !! f = Some (i0, i1, i2) →
  i0 ∈ faces_flat faces ∧ i1 ∈ faces_flat faces ∧ i2 ∈ faces_flat faces.
Proof.
  intros Hf. unfold faces_flat.
  assert (∀ i, i ∈ [i0; i1; i2] →
               i ∈ flat_map (λ '(i0, i1, i2), [i0; i1; i2]) faces) as H.
  { intros i Hi. apply list_elem_of_In, in_flat_map.
    exists (i0, i1, i2). split.
    - apply list_elem_of_In. by eapply list_elem_of_lookup_2.
    - by apply list_elem_of_In. }
  repeat split; apply H; rewrite !elem_of_cons; auto.
Qed.

Lemma foldr_max_ge (l : list nat) (i : nat) :
  i ∈ l → (i <= foldr Nat.max 0 l)%nat.
Proof.
  induction l as [|x l IH]; [by intros ?%elem_of_nil|].
  intros [->|Hi]%elem_of_cons; simpl; [lia|]. specialize (IH Hi). lia.
Qed.

(** A point of the manifold has a row for every index of the
    triangulation. *)
Lemma belongs_in_range (point : Surface) :
  belongs faces point = true →
  Forall (λ i, (i < length point)%nat) (faces_flat faces).
Proof.
  intros Hb%bool_decide_eq_true. apply Forall_forall. intros i Hi.
  rewrite Hb. unfold n_vertices. apply foldr_max_ge in Hi. lia.
Qed.

Lemma _vertices_is_Some (point : Surface) :
  Forall (λ i, (i < length point)%nat) (faces_flat faces) →
  is_Some (_vertices faces point).
Proof.
  intros Hin. apply mapM_is_Some, Forall_lookup.
  intros f [[i0 i1] i2] Hf. unfold compose.
  destruct (faces_flat_lookup _ _ _ _ Hf) as (H0 & H1 & H2).
  rewrite Forall_forall in Hin.
  destruct (lookup_lt_is_Some_2 point i0 (Hin _ H0)) as [v0 ->].
  destruct (lookup_lt_is_Some_2 point i1 (Hin _ H1)) as [v1 ->].
  destruct (lookup_lt_is_Some_2 point i2 (Hin _ H2)) as [v2 ->].
  simpl. eauto.
Qed.

Lemma _vertices_length (point : Surface) (fcs : list (V3 * V3 * V3)) :
  _vertices faces point = Some fcs → length fcs = length faces.
Proof. intros H%mapM_Some_1. symmetry. by eapply Forall2_length. Qed.

Lemma _vertices_lookup (point : Surface) (fcs : list (V3 * V3 * V3))
    (f i0 i1 i2 : nat) :
  _vertices faces point = Some fcs →
  faces !! f = Some (i0, i1, i2) →
  ∃ v0 v1 v2,
    point !! i0 = Some v0 ∧ point !! i1 = Some v1 ∧ point !! i2 = Some v2
    ∧ fcs !! f = Some (v0, v1, v2).
Proof.
  intros Hv%mapM_Some_1 Hf.
  destruct (Forall2_lookup_l _ _ _ _ _ Hv Hf) as ([[v0 v1] v2] & Hfc & Hrow).
  simpl in Hrow.
  destruct (point !! i0) as [w0|]; simplify_eq/=.
  destruct (point !! i1) as [w1|]; simplify_eq/=.
  destruct (point !! i2) as [w2|]; simplify_eq/=.
  eauto 10.
Qed.

Lemma _vertices_in_range (point : Surface) :
  is_Some (_vertices faces point) →
  Forall (λ i, (i < length point)%nat) (faces_flat faces).
Proof.
  intros [fcs Hv]. unfold faces_flat. apply Forall_forall.
  intros i [[[i0 i1] i2] [Hface Hi]]%list_elem_of_In%in_flat_map.
  apply list_elem_of_In, list_elem_of_lookup in Hface as [f Hf].
  destruct (_vertices_lookup _ _ _ _ _ _ Hv Hf) as (v0 & v1 & v2 & H0 & H1 & H2 & _).
  apply list_elem_of_In in Hi.
  repeat (apply elem_of_cons in Hi as [->|Hi]; [by eapply lookup_lt_Some|]).
  by apply elem_of_nil in Hi.
Qed.

End Vertices.

(** ** Areas and normals *)

(** C7. For a point of the manifold, [normals] returns one row per face;
    the row of a face with vertices [v0], [v1], [v2] is
    [0.5 * cross (v1 - v0) (v2 - v0)], its norm is the area of the triangle
    (Heron's formula, which is also what [_triangle_areas] returns for the
    face when the floor does not apply), and it is orthogonal to both edge
    vectors. *)
Theorem normals_half_cross_area_orthogonal (faces : list Face) (point : Surface) :
  belongs faces point = true →
  ∃ ns,
    normals faces point = Some ns
    ∧ length ns = n_faces faces
    ∧ ∀ f i0 i1 i2,
        faces !! f = Some (i0, i1, i2) →
        ∃ v0 v1 v2 n,
          point !! i0 = Some v0 ∧ point !! i1 = Some v1 ∧ point !! i2 = Some v2
          ∧ ns !! f = Some n
          ∧ n = scal3 0.5 (cross (sub3 v1 v0) (sub3 v2 v0))
          ∧ norm n = sqrt (heron_product (v0, v1, v2))
          ∧ (1e-6 <= heron_product (v0, v1, v2) →
             norm n = triangle_area (v0, v1, v2))
          ∧ dot3 n (sub3 v1 v0) = 0
          ∧ dot3 n (sub3 v2 v0) = 0.
Proof.
  intros Hb.
  destruct (_vertices_is_Some faces point (belongs_in_range _ _ Hb)) as [fcs Hv].
  exists (normal <$> fcs). unfold normals. rewrite Hv. simpl.
  split; [reflexivity|]. split.
  { rewrite length_fmap. by eapply _vertices_length. }
  intros f i0 i1 i2 Hf.
  destruct (_vertices_lookup _ _ _ _ _ _ _ Hv Hf) as (v0 & v1 & v2 & H0 & H1 & H2 & Hfc).
  exists v0, v1, v2, (normal (v0, v1, v2)).
  rewrite list_lookup_fmap, Hfc.
  split; [exact H0|]. split; [exact H1|]. split; [exact H2|].
  split; [reflexivity|]. split; [reflexivity|].
  split; [apply norm_normal|]. split.
  { intros Hfloor. rewrite norm_normal. symmetry.
    by apply triangle_area_above_floor. }
  unfold normal. rewrite !scal3_dot3.
  destruct (cross_orthogonal (sub3 v1 v0) (sub3 v2 v0)) as [-> ->].
  split; ring.
Qed.


Lemma _triangle_areas_vertices (faces : list Face) (point : Surface)
    (fcs : list (V3 * V3 * V3)) :
  _vertices faces point = Some fcs →
  _triangle_areas faces point = Some (triangle_area <$> fcs).
Proof. intros Hv. unfold _triangle_areas. by rewrite Hv. Qed.



(** C9. Where the Heron product is a number (no intermediate has
    overflowed), the value under both square roots is that product
    clipped to at least [1e-6], on degenerate faces too; so every area
    returned by [_triangle_areas] and the area inside [laplacian] is at
    least [sqrt 1e-6] and positive, and each cotangent weight is its
    numerator divided by that positive area and by 2. The floor does not
    depend on the sign of the product: a radicand that round-off has made
    negative is clipped like any other. *)
Theorem heron_floor_positive_area (faces : list Face) (point : Surface) :
  (∀ vertex_0 vertex_1 vertex_2 : V3,
     let fc := (vertex_0, vertex_1, vertex_2) in
     let radicand := clip_min (heron_product fc) 1e-6 in
     let len_edge_12 := norm (sub3 vertex_1 vertex_2) in
     let len_edge_02 := norm (sub3 vertex_0 vertex_2) in
     let len_edge_01 := norm (sub3 vertex_0 vertex_1) in
     0 < 1e-6 <= radicand
     ∧ triangle_area fc = sqrt radicand
     ∧ laplacian_area fc = sqrt radicand
     ∧ sqrt 1e-6 <= sqrt radicand
     ∧ 0 < sqrt radicand
     ∧ cot fc
       = [(len_edge_02 * len_edge_02 + len_edge_01 * len_edge_01
           - len_edge_12 * len_edge_12) / sqrt radicand / 2.0;
          (len_edge_12 * len_edge_12 + len_edge_01 * len_edge_01
           - len_edge_02 * len_edge_02) / sqrt radicand / 2.0;
          (len_edge_12 * len_edge_12 + len_edge_02 * len_edge_02
           - len_edge_01 * len_edge_01) / sqrt radicand / 2.0])
  ∧ (∀ ta, _triangle_areas faces point = Some ta →
           Forall (λ t, sqrt 1e-6 <= t ∧ 0 < t) ta)
  ∧ (∀ L, laplacian faces point = Some L →
          ∃ fcs, _vertices faces point = Some fcs
                 ∧ lap_cot_flatten L = flat_map cot fcs
                 ∧ Forall (λ fc, sqrt 1e-6 <= laplacian_area fc
                                 ∧ 0 < laplacian_area fc) fcs)
  ∧ (∀ radicand : R,
       1e-6 <= clip_min radicand 1e-6
       ∧ sqrt 1e-6 <= sqrt (clip_min radicand 1e-6)
       ∧ 0 < sqrt (clip_min radicand 1e-6)).
Proof.
  split; [|split; [|split]].
  - intros vertex_0 vertex_1 vertex_2 fc radicand
      len_edge_12 len_edge_02 len_edge_01.
    pose proof (triangle_area_floor fc) as [Hge Hpos].
    split; [split; [apply floor_pos|apply clip_min_ge]|].
    split; [reflexivity|].
    split; [apply laplacian_area_triangle_area|].
    split; [exact Hge|]. split; [exact Hpos|].
    unfold cot. rewrite (laplacian_area_triangle_area fc). reflexivity.
  - intros ta Hta. unfold _triangle_areas in Hta.
    destruct (_vertices faces point) as [fcs|]; simplify_eq/=.
    apply Forall_fmap, Forall_forall. intros fc _. apply triangle_area_floor.
  - intros L HL. unfold laplacian in HL.
    destruct (_vertices faces point) as [fcs|]; simplify_eq/=.
    exists fcs. split; [reflexivity|]. split; [reflexivity|].
    apply Forall_forall. intros fc _.
    rewrite laplacian_area_triangle_area. apply triangle_area_floor.
  - intros radicand. pose proof floor_pos as Hfloor.
    pose proof (clip_min_ge radicand 1e-6) as Hclip.
    split; [exact Hclip|].
    assert (sqrt 1e-6 <= sqrt (clip_min radicand 1e-6)) as Hsqrt
      by (apply sqrt_le_1_alt; lra).
    split; [exact Hsqrt|]. pose proof sqrt_floor_pos. lra.
Qed.

(** The binary64 embedding on the sample surfaces: the area of the 3-4-5
    triangle is 6, and on three collinear vertices the floor gives the
    area [0.001]. *)
Example float64_triangle_areas_samples :
  Float64._triangle_areas Examples.one_face Float64.sample_345
  = Some [Float64.six]
  ∧ Float64._triangle_areas Examples.one_face Float64.sample_collinear
    = Some [Float64.thousandth].
Proof. split; reflexivity. Qed.

(** C9 fails in binary64 where the squared edge lengths overflow: on the
    right triangle with legs [1e200] every edge length is [inf], the
    half-perimeter minus an edge is [inf - inf = NaN], [clip] leaves the
    [NaN] radicand as it is, and the area returned by [_triangle_areas],
    the area inside [laplacian] and the three cotangent weights are all
    [NaN]; the area is not at least [sqrt 1e-6]. *)
Lemma triangle_areas_nan_on_overflow :
  ∃ area cot_flatten,
    Float64._triangle_areas Examples.one_face Float64.sample_huge
    = Some [area]
    ∧ PrimFloat.is_nan area = true
    ∧ PrimFloat.leb (PrimFloat.sqrt Float64.floor) area = false
    ∧ Float64.laplacian_cot_flatten Examples.one_face Float64.sample_huge
      = Some cot_flatten
    ∧ length cot_flatten = 3%nat
    ∧ forallb PrimFloat.is_nan cot_flatten = true.
Proof. eexists _, _. repeat split; reflexivity. Qed.


(** ** Linearity of [scatter_add] and of the Laplacian *)
Section ScatterLinear.

Lemma scatter_add_plus (index : list nat) :
  ∀ (input1 input2 src1 src2 : list R),
    length input1 = length input2 →
    length src1 = length src2 →
    scatter_add (zip_with Rplus input1 input2) index (zip_with Rplus src1 src2)
    = o1 ← scatter_add input1 index src1;
      o2 ← scatter_add input2 index src2;
      Some (zip_with Rplus o1 o2).
Proof.
  induction index as [|i index IH];
    intros input1 input2 [|s1 src1] [|s2 src2] Hin Hsrc; simplify_eq/=;
    try reflexivity.
  rewrite lookup_zip_with.
  destruct (input1 !! i) as [x1|] eqn:H1; simpl.
  - destruct (lookup_lt_is_Some_2 input2 i) as [x2 H2].
    { rewrite <- Hin. by eapply lookup_lt_Some. }
    rewrite H2. simpl.
    replace (x1 + x2 + (s1 + s2)) with ((x1 + s1) + (x2 + s2)) by ring.
    rewrite insert_zip_with. apply IH; [|done].
    by rewrite !length_insert.
  - reflexivity.
Qed.

Lemma scatter_add_scale (c : R) (index : list nat) :
  ∀ (input src : list R),
    scatter_add (Rmult c <$> input) index (Rmult c <$> src)
    = fmap (M:=list) (Rmult c) <$> scatter_add input index src.
Proof.
  induction index as [|i index IH]; intros input [|s src]; csimpl;
    try reflexivity.
  rewrite list_lookup_fmap.
  destruct (input !! i) as [x|] eqn:Hx; simpl; [|reflexivity].
  replace (c * x + c * s) with (c * (x + s)) by ring.
  rewrite <- list_fmap_insert. apply IH.
Qed.

Lemma column_zip_with_add3 (k : nat) (a b : list V3) :
  column k (zip_with add3 a b) = zip_with Rplus (column k a) (column k b).
Proof.
  unfold column. apply list_eq. intros i.
  rewrite list_lookup_fmap, !lookup_zip_with, !list_lookup_fmap.
  destruct (a !! i) as [[[x0 x1] x2]|], (b !! i) as [[[y0 y1] y2]|];
    simpl; try reflexivity.
  by destruct k as [|[|k]].
Qed.

Lemma column_scal3 (k : nat) (c : R) (a : list V3) :
  column k (scal3 c <$> a) = Rmult c <$> column k a.
Proof.
  unfold column. rewrite <- !list_fmap_compose. apply list_fmap_ext.
  intros _ [[x0 x1] x2] _. simpl. by destruct k as [|[|k]].
Qed.

Lemma column_replicate_zero3 (k n : nat) :
  column k (replicate n zero3) = replicate n 0.
Proof. unfold column. rewrite fmap_replicate. by destruct k as [|[|k]]. Qed.

Lemma length_column (k : nat) (a : list V3) : length (column k a) = length a.
Proof. unfold column. apply length_fmap. Qed.

Lemma of_columns_plus (a0 a1 a2 b0 b1 b2 : list R) :
  of_columns (zip_with Rplus a0 b0) (zip_with Rplus a1 b1) (zip_with Rplus a2 b2)
  = zip_with add3 (of_columns a0 a1 a2) (of_columns b0 b1 b2).
Proof.
  unfold of_columns. apply list_eq. intros i.
  rewrite !lookup_zip_with.
  destruct (a0 !! i), (b0 !! i), (a1 !! i), (b1 !! i), (a2 !! i), (b2 !! i);
    reflexivity.
Qed.

Lemma of_columns_scale (c : R) (a0 a1 a2 : list R) :
  of_columns (Rmult c <$> a0) (Rmult c <$> a1) (Rmult c <$> a2)
  = scal3 c <$> of_columns a0 a1 a2.
Proof.
  unfold of_columns. apply list_eq. intros i.
  rewrite list_lookup_fmap, !lookup_zip_with, !list_lookup_fmap.
  destruct (a0 !! i), (a1 !! i), (a2 !! i); reflexivity.
Qed.

Lemma length_of_columns (n : nat) (a0 a1 a2 : list R) :
  length a0 = n → length a1 = n → length a2 = n →
  length (of_columns a0 a1 a2) = n.
Proof.
  intros H0 H1 H2. unfold of_columns. rewrite !length_zip_with. lia.
Qed.

Lemma scatter_add_columns_plus (n : nat) (index : list nat) (src1 src2 : list V3) :
  length src1 = length src2 →
  scatter_add_columns (replicate n zero3) index (zip_with add3 src1 src2)
  = o1 ← scatter_add_columns (replicate n zero3) index src1;
    o2 ← scatter_add_columns (replicate n zero3) index src2;
    Some (zip_with add3 o1 o2).
Proof.
  intros Hlen. unfold scatter_add_columns.
  rewrite !column_zip_with_add3, !column_replicate_zero3.
  replace (replicate n 0) with (zip_with Rplus (replicate n 0) (replicate n 0))
    by (rewrite zip_with_replicate; f_equal; ring).
  rewrite !scatter_add_plus by (rewrite ?length_column; done).
  rewrite zip_with_replicate, Rplus_0_l.
  destruct (scatter_add (replicate n 0) index (column 0 src1)) as [a0|],
    (scatter_add (replicate n 0) index (column 1 src1)) as [a1|],
    (scatter_add (replicate n 0) index (column 2 src1)) as [a2|],
    (scatter_add (replicate n 0) index (column 0 src2)) as [b0|],
    (scatter_add (replicate n 0) index (column 1 src2)) as [b1|],
    (scatter_add (replicate n 0) index (column 2 src2)) as [b2|];
    simpl; try reflexivity.
  by rewrite of_columns_plus.
Qed.

Lemma scatter_add_columns_scale (c : R) (n : nat) (index : list nat)
    (src : list V3) :
  scatter_add_columns (replicate n zero3) index (scal3 c <$> src)
  = fmap (M:=list) (scal3 c)
      <$> scatter_add_columns (replicate n zero3) index src.
Proof.
  unfold scatter_add_columns.
  rewrite !column_scal3, !column_replicate_zero3.
  replace (replicate n 0) with (Rmult c <$> replicate n 0)
    by (rewrite fmap_replicate; f_equal; ring).
  rewrite !scatter_add_scale, fmap_replicate, Rmult_0_r.
  destruct (scatter_add (replicate n 0) index (column 0 src)) as [a0|],
    (scatter_add (replicate n 0) index (column 1 src)) as [a1|],
    (scatter_add (replicate n 0) index (column 2 src)) as [a2|];
    simpl; try reflexivity.
  by rewrite of_columns_scale.
Qed.

Lemma scatter_add_columns_length (input : list V3) (index : list nat)
    (src out : list V3) :
  scatter_add_columns input index src = Some out → length out = length input.
Proof.
  unfold scatter_add_columns. intros H.
  destruct (scatter_add (column 0 input) index (column 0 src)) as [c0|] eqn:H0;
    simplify_eq/=.
  destruct (scatter_add (column 1 input) index (column 1 src)) as [c1|] eqn:H1;
    simplify_eq/=.
  destruct (scatter_add (column 2 input) index (column 2 src)) as [c2|] eqn:H2;
    simplify_eq/=.
  apply scatter_add_length in H0, H1, H2. rewrite length_column in H0, H1, H2.
  by apply length_of_columns.
Qed.

Lemma scatter_add_columns_is_Some (input : list V3) (index : list nat)
    (src : list V3) :
  Forall (λ i, (i < length input)%nat) index →
  is_Some (scatter_add_columns input index src).
Proof.
  intros Hin. unfold scatter_add_columns.
  destruct (scatter_add_is_Some index (column 0 input) (column 0 src))
    as [c0 ->]; [by rewrite length_column|].
  destruct (scatter_add_is_Some index (column 1 input) (column 1 src))
    as [c1 ->]; [by rewrite length_column|].
  destruct (scatter_add_is_Some index (column 2 input) (column 2 src))
    as [c2 ->]; [by rewrite length_column|].
  simpl. eauto.
Qed.

End ScatterLinear.

Section LaplacianLinear.

Lemma take_cons {A} (u : list A) (i : nat) (index : list nat) :
  take u (i :: index) = x ← u !! i; t ← take u index; Some (x :: t).
Proof. reflexivity. Qed.

Lemma take_zip_with {A} (f : A → A → A) (u v : list A) (index : list nat) :
  take (zip_with f u v) index
  = tu ← take u index; tv ← take v index; Some (zip_with f tu tv).
Proof.
  induction index as [|i index IH]; [reflexivity|].
  rewrite !take_cons, IH, lookup_zip_with.
  destruct (u !! i), (v !! i), (take u index), (take v index); reflexivity.
Qed.

Lemma take_fmap {A} (f : A → A) (u : list A) (index : list nat) :
  take (f <$> u) index = fmap (M:=list) f <$> take u index.
Proof.
  induction index as [|i index IH]; [reflexivity|].
  rewrite !take_cons, IH, list_lookup_fmap.
  destruct (u !! i), (take u index); reflexivity.
Qed.

Lemma take_length {A} (u t : list A) (index : list nat) :
  take u index = Some t → length t = length index.
Proof. intros H%mapM_Some_1. symmetry. by eapply Forall2_length. Qed.

Lemma take_is_Some {A} (u : list A) (index : list nat) :
  Forall (λ i, (i < length u)%nat) index → is_Some (take u index).
Proof.
  intros Hin. apply mapM_is_Some. eapply Forall_impl; [exact Hin|].
  intros i Hi. by apply lookup_lt_is_Some_2.
Qed.

Lemma zip_with_sub3_add3 (a b c d : list V3) :
  zip_with sub3 (zip_with add3 a b) (zip_with add3 c d)
  = zip_with add3 (zip_with sub3 a c) (zip_with sub3 b d).
Proof.
  apply list_eq. intros i. rewrite !lookup_zip_with.
  destruct (a !! i) as [[[a0 a1] a2]|], (b !! i) as [[[b0 b1] b2]|],
    (c !! i) as [[[c0 c1] c2]|], (d !! i) as [[[d0 d1] d2]|];
    simpl; try reflexivity.
  f_equal. apply V3_eq; ring.
Qed.

Lemma zip_with_scal3_add3 (w : list R) (a b : list V3) :
  zip_with scal3 w (zip_with add3 a b)
  = zip_with add3 (zip_with scal3 w a) (zip_with scal3 w b).
Proof.
  apply list_eq. intros i. rewrite !lookup_zip_with.
  destruct (w !! i) as [c|], (a !! i) as [[[a0 a1] a2]|],
    (b !! i) as [[[b0 b1] b2]|]; simpl; try reflexivity.
  f_equal. apply V3_eq; ring.
Qed.

Lemma zip_with_sub3_scal3 (c : R) (a b : list V3) :
  zip_with sub3 (scal3 c <$> a) (scal3 c <$> b)
  = scal3 c <$> zip_with sub3 a b.
Proof.
  apply list_eq. intros i.
  rewrite list_lookup_fmap, !lookup_zip_with, !list_lookup_fmap.
  destruct (a !! i) as [[[a0 a1] a2]|], (b !! i) as [[[b0 b1] b2]|];
    simpl; try reflexivity.
  f_equal. apply V3_eq; ring.
Qed.

Lemma zip_with_scal3_scal3 (c : R) (w : list R) (a : list V3) :
  zip_with scal3 w (scal3 c <$> a) = scal3 c <$> zip_with scal3 w a.
Proof.
  apply list_eq. intros i.
  rewrite list_lookup_fmap, !lookup_zip_with, !list_lookup_fmap.
  destruct (w !! i) as [x|], (a !! i) as [[[a0 a1] a2]|];
    simpl; try reflexivity.
  f_equal. apply V3_eq; ring.
Qed.

Variable L : LaplacianAt.

(** The closure is additive. *)
Lemma _laplacian_plus (u v : Surface) :
  _laplacian L (zip_with add3 u v)
  = lu ← _laplacian L u; lv ← _laplacian L v; Some (zip_with add3 lu lv).
Proof.
  unfold _laplacian. rewrite !take_zip_with.
  destruct (take u (fst (lap_id_vertices L))) as [u0|] eqn:Hu0;
    [|reflexivity].
  destruct (take u (snd (lap_id_vertices L))) as [u1|] eqn:Hu1;
    cbn [mbind option_bind].
  2: { by destruct (take v (fst (lap_id_vertices L))). }
  destruct (take v (fst (lap_id_vertices L))) as [v0|] eqn:Hv0;
    cbn [mbind option_bind].
  2: { by destruct (scatter_add_columns _ _ _). }
  destruct (take v (snd (lap_id_vertices L))) as [v1|] eqn:Hv1;
    cbn [mbind option_bind].
  2: { by destruct (scatter_add_columns _ _ _). }
  rewrite zip_with_sub3_add3, zip_with_scal3_add3.
  apply scatter_add_columns_plus.
  apply take_length in Hu0, Hu1, Hv0, Hv1.
  rewrite !length_zip_with. lia.
Qed.

(** The closure is homogeneous. *)
Lemma _laplacian_scale (c : R) (u : Surface) :
  _laplacian L (scal3 c <$> u) = fmap (M:=list) (scal3 c) <$> _laplacian L u.
Proof.
  unfold _laplacian. rewrite !take_fmap.
  destruct (take u (fst (lap_id_vertices L))) as [u0|]; [|reflexivity].
  destruct (take u (snd (lap_id_vertices L))) as [u1|]; [|reflexivity].
  cbn [mbind option_bind fmap option_fmap option_map].
  rewrite zip_with_sub3_scal3, zip_with_scal3_scal3.
  apply scatter_add_columns_scale.
Qed.

Lemma _laplacian_length (u out : Surface) :
  _laplacian L u = Some out → length out = lap_n_vertices L.
Proof.
  unfold _laplacian. intros H.
  destruct (take u (fst (lap_id_vertices L))) as [u0|]; simplify_eq/=.
  destruct (take u (snd (lap_id_vertices L))) as [u1|]; simplify_eq/=.
  apply scatter_add_columns_length in H. by rewrite length_replicate in H.
Qed.

Lemma _laplacian_is_Some (u : Surface) :
  Forall (λ i, (i < length u)%nat) (fst (lap_id_vertices L)) →
  Forall (λ i, (i < length u)%nat) (snd (lap_id_vertices L)) →
  Forall (λ i, (i < lap_n_vertices L)%nat) (snd (lap_id_vertices L)) →
  is_Some (_laplacian L u).
Proof.
  intros H0 H1 Hn. unfold _laplacian.
  destruct (take_is_Some u _ H0) as [u0 ->].
  destruct (take_is_Some u _ H1) as [u1 ->].
  cbn [mbind option_bind]. apply scatter_add_columns_is_Some.
  by rewrite length_replicate.
Qed.

End LaplacianLinear.

(** What [laplacian] captures in its closure. *)
Lemma laplacian_closure (faces : list Face) (point : Surface) (L : LaplacianAt) :
  laplacian faces point = Some L →
  lap_n_vertices L = length point
  ∧ Forall (λ i, (i < length point)%nat) (fst (lap_id_vertices L))
  ∧ Forall (λ i, (i < length point)%nat) (snd (lap_id_vertices L)).
Proof.
  unfold laplacian. intros H.
  destruct (_vertices faces point) as [fcs|] eqn:Hv; simplify_eq/=.
  split; [reflexivity|].
  pose proof (_vertices_in_range faces point (mk_is_Some _ _ Hv)) as Hin.
  rewrite Forall_forall in Hin.
  split; apply Forall_forall; intros i Hi; apply Hin;
    apply list_elem_of_In, in_flat_map in Hi as ([[i0 i1] i2] & Hface & Hi);
    apply list_elem_of_In, in_flat_map; exists (i0, i1, i2);
    (split; [exact Hface|]); simpl in *; tauto.
Qed.

Lemma laplacian_is_Some (faces : list Face) (point : Surface) :
  Forall (λ i, (i < length point)%nat) (faces_flat faces) →
  is_Some (laplacian faces point).
Proof.
  intros Hin. unfold laplacian.
  destruct (_vertices_is_Some faces point Hin) as [fcs ->]. simpl. eauto.
Qed.

(** C8. The operator returned by [laplacian] at a base point is linear:
    it maps a sum of two tangent vectors to the sum of their images, a
    scalar multiple to the multiple of the image, and the zero field to
    the zero field; it returns on every tangent vector of the shape of the
    base point. *)
Theorem laplacian_operator_linear (faces : list Face) (point : Surface)
    (L : LaplacianAt) :
  laplacian faces point = Some L →
  (∀ u : Surface, length u = length point → is_Some (_laplacian L u))
  ∧ (∀ u v w : Surface,
       elementwise add3 u v = Some w →
       _laplacian L w
       = lu ← _laplacian L u; lv ← _laplacian L v; elementwise add3 lu lv)
  ∧ (∀ (c : R) (u : Surface),
       _laplacian L (scal3 c <$> u)
       = fmap (M:=list) (scal3 c) <$> _laplacian L u)
  ∧ _laplacian L (replicate (length point) zero3)
    = Some (replicate (length point) zero3).
Proof.
  intros HL. destruct (laplacian_closure _ _ _ HL) as (Hn & H120 & H201).
  assert (∀ u : Surface, length u = length point → is_Some (_laplacian L u))
    as Htotal.
  { intros u Hu. apply _laplacian_is_Some; rewrite ?Hu, ?Hn; assumption. }
  refine (conj Htotal (conj _ (conj _ _))).
  - intros u v w Hw. unfold elementwise in Hw.
    destruct (decide (length u = length v)); simplify_eq/=.
    rewrite _laplacian_plus.
    destruct (_laplacian L u) as [lu|] eqn:Hu; [|reflexivity].
    destruct (_laplacian L v) as [lv|] eqn:Hv; [|reflexivity].
    cbn [mbind option_bind]. unfold elementwise.
    rewrite decide_True; [reflexivity|].
    by rewrite (_laplacian_length _ _ _ Hu), (_laplacian_length _ _ _ Hv).
  - apply _laplacian_scale.
  - set (zero := replicate (length point) zero3).
    assert (zero = scal3 0 <$> zero) as Hz.
    { unfold zero. rewrite fmap_replicate. f_equal.
      apply V3_eq; ring. }
    rewrite Hz, _laplacian_scale.
    destruct (Htotal zero) as [out Hout].
    { unfold zero. apply length_replicate. }
    rewrite Hout. cbn [fmap option_fmap option_map]. f_equal.
    rewrite <- Hz. unfold zero.
    apply _laplacian_length in Hout. rewrite Hn in Hout. rewrite <- Hout.
    clear. induction out as [|[[x0 x1] x2] out IH]; [reflexivity|].
    csimpl. rewrite IH. f_equal.
    apply V3_eq; ring.
Qed.

(** ** The guards of [inner_product] *)
Section Guards.
Import ElasticMetric.
Variable faces : list Face.
Variable self : Weights.

Lemma guard_false (x : R) : x <= 0 → bool_decide (x > 0) = false.
Proof. intros H. apply bool_decide_eq_false_2. lra. Qed.

Lemma guard_true (x : R) : 0 < x → bool_decide (x > 0) = true.
Proof. intros H. apply bool_decide_eq_true_2. lra. Qed.

Lemma inner_product_a0_a2_closed (u v p : Surface) :
  a0 self <= 0 → a2 self <= 0 →
  inner_product_a0_a2 faces self u v p = Some (0, 0).
Proof.
  intros H0 H2. unfold inner_product_a0_a2.
  by rewrite !guard_false.
Qed.

(** The first-order block is entered on [a1], [b1] or [c1] only. *)
Lemma inner_product_first_order_closed (u v p : Surface) :
  a1 self <= 0 → b1 self <= 0 → c1 self <= 0 →
  inner_product_first_order faces self u v p = Some (0, 0, 0, 0).
Proof.
  intros Ha Hb Hc. unfold inner_product_first_order.
  by rewrite !guard_false.
Qed.

Lemma inner_product_guards_closed (u v p : Surface) :
  a0 self <= 0 → a1 self <= 0 → b1 self <= 0 → c1 self <= 0 →
  a2 self <= 0 →
  inner_product faces self u v p = Some 0.
Proof.
  intros H0 Ha Hb Hc H2. unfold inner_product.
  rewrite inner_product_a0_a2_closed, inner_product_first_order_closed
    by assumption.
  simpl. f_equal. ring.
Qed.

End Guards.

(** C10. With all six weights at most zero no term is computed and
    [inner_product] returns [0.0], whatever the tangent vectors and the
    base point. *)
Theorem inner_product_nonpositive_weights_zero (faces : list Face)
    (self : ElasticMetric.Weights) (u v p : Surface) :
  ElasticMetric.a0 self <= 0 → ElasticMetric.a1 self <= 0 →
  ElasticMetric.b1 self <= 0 → ElasticMetric.c1 self <= 0 →
  ElasticMetric.d1 self <= 0 → ElasticMetric.a2 self <= 0 →
  ElasticMetric.inner_product faces self u v p = Some 0.
Proof.
  intros H0 Ha Hb Hc _ H2. by apply inner_product_guards_closed.
Qed.

(** C1, at a metric whose only positive weight is [d1]. On the unit right
    triangle with the shear of vertex 1 as both tangent vectors,
    [inner_product] returns [0.0], while [_inner_product_d1] on the
    arguments that [inner_product] would pass to it is [2]: the [d1] term
    is left out although its weight is positive. *)
Theorem inner_product_d1_only_returns_zero :
  let self := Examples.weights 0 0 0 0 1 0 in
  ElasticMetric.inner_product Examples.one_face self
    Examples.shear Examples.shear Examples.unit_triangle = Some 0
  ∧ ∃ point_a one_forms_a one_forms_bp ginv_bp,
      elementwise add3 Examples.unit_triangle Examples.shear = Some point_a
      ∧ surface_one_forms Examples.one_face point_a = Some one_forms_a
      ∧ surface_one_forms Examples.one_face Examples.unit_triangle
        = Some one_forms_bp
      ∧ mapM inv (_surface_metric_matrices_from_one_forms one_forms_bp)
        = Some ginv_bp
      ∧ ElasticMetric._inner_product_d1 self one_forms_a one_forms_a
          one_forms_bp
          ((λ m, sqrt (det m))
             <$> _surface_metric_matrices_from_one_forms one_forms_bp)
          ginv_bp = 2.
Proof.
  intros self. split.
  { apply inner_product_guards_closed; simpl; lra. }
  eexists _, _, _, _.
  split; [reflexivity|]. split; [reflexivity|]. split; [reflexivity|].
  split.
  { cbn [_surface_metric_matrices_from_one_forms fmap list_fmap mapM mbind
           option_bind].
    rewrite inv_Some by (simpl; lra). reflexivity. }
  unfold ElasticMetric._inner_product_d1. simpl.
  rewrite (sqrt_eq _ 1) by lra.
  unfold sum, ElasticMetric.d1_trace, ElasticMetric.d1_projection. simpl.
  field.
Qed.

(** C2 fails where the bending term is active: with [c1 = 1] as the only
    positive weight, doubling the stretch of the unit right triangle does
    not double its inner product with the stretch. *)
Lemma inner_product_not_homogeneous_c1 :
  ElasticMetric.inner_product Examples.one_face (Examples.weights 0 0 0 1 0 0)
    (scal3 2 <$> Examples.stretch) Examples.stretch Examples.unit_triangle
  ≠ Rmult 2
      <$> ElasticMetric.inner_product Examples.one_face
            (Examples.weights 0 0 0 1 0 0)
            Examples.stretch Examples.stretch Examples.unit_triangle.
Proof.
  unfold ElasticMetric.inner_product.
  rewrite !inner_product_a0_a2_closed by (simpl; lra).
  unfold ElasticMetric.inner_product_first_order,
    ElasticMetric.inner_product_a1_b1_d1. simpl.
  rewrite (guard_false 0) by lra. rewrite (guard_true 1) by lra. simpl.
  rewrite (sqrt_eq _ 1) by lra. unfold sum. simpl.
  intros [= H]. lra.
Qed.

(** ** Homogeneity of the zeroth- and second-order terms *)
Section Homogeneous.
Import ElasticMetric.
Variable faces : list Face.
Variable self : Weights.

Lemma elementwise_Some {A B C} (f : A → B → C) (l1 : list A) (l2 : list B) :
  length l1 = length l2 → elementwise f l1 l2 = Some (zip_with f l1 l2).
Proof. intros H. unfold elementwise. by rewrite decide_True. Qed.

Lemma elementwise_None {A B C} (f : A → B → C) (l1 : list A) (l2 : list B) :
  length l1 ≠ length l2 → elementwise f l1 l2 = None.
Proof. intros H. unfold elementwise. by rewrite decide_False. Qed.

Lemma weighted_dots_scale (c : R) (va : list R) (u v : list V3) :
  zip_with Rmult va (zip_with dot3 (scal3 c <$> u) v)
  = Rmult c <$> zip_with Rmult va (zip_with dot3 u v).
Proof.
  apply list_eq. intros i.
  rewrite list_lookup_fmap, !lookup_zip_with, list_lookup_fmap.
  destruct (va !! i) as [a|], (u !! i) as [[[x0 x1] x2]|],
    (v !! i) as [[[y0 y1] y2]|]; simpl; try reflexivity.
  f_equal. ring.
Qed.

Lemma divided_dots_scale (c : R) (va : list R) (u v : list V3) :
  zip_with Rdiv (zip_with dot3 (scal3 c <$> u) v) va
  = Rmult c <$> zip_with Rdiv (zip_with dot3 u v) va.
Proof.
  apply list_eq. intros i.
  rewrite list_lookup_fmap, !lookup_zip_with, list_lookup_fmap.
  destruct (u !! i) as [[[x0 x1] x2]|], (v !! i) as [[[y0 y1] y2]|],
    (va !! i) as [a|]; simpl; try reflexivity.
  f_equal. unfold Rdiv. ring.
Qed.

Lemma _inner_product_a0_scale (c : R) (u v : Surface) (va : list R) :
  _inner_product_a0 self (scal3 c <$> u) v va
  = Rmult c <$> _inner_product_a0 self u v va.
Proof.
  unfold _inner_product_a0, elementwise.
  rewrite length_fmap.
  destruct (decide (length u = length v)); [|reflexivity].
  cbn [mbind option_bind]. rewrite !length_zip_with, length_fmap.
  destruct (decide (length va = length u `min` length v)); [|reflexivity].
  cbn [mbind option_bind fmap option_fmap option_map].
  rewrite weighted_dots_scale, sum_fmap_scale. f_equal. ring.
Qed.

Lemma _inner_product_a2_scale (c : R) (u v p : Surface) (va : list R) :
  _inner_product_a2 faces self (scal3 c <$> u) v p va
  = Rmult c <$> _inner_product_a2 faces self u v p va.
Proof.
  unfold _inner_product_a2.
  destruct (laplacian faces p) as [L|]; [|reflexivity].
  cbn [mbind option_bind]. rewrite _laplacian_scale.
  destruct (_laplacian L u) as [lu|]; [|reflexivity].
  cbn [mbind option_bind fmap option_fmap option_map].
  destruct (_laplacian L v) as [lv|]; [|reflexivity].
  cbn [mbind option_bind fmap option_fmap option_map].
  rewrite divided_dots_scale, sum_fmap_scale. f_equal. ring.
Qed.

Lemma inner_product_a0_a2_scale (c : R) (u v p : Surface) :
  inner_product_a0_a2 faces self (scal3 c <$> u) v p
  = (λ '(x, y), (c * x, c * y)) <$> inner_product_a0_a2 faces self u v p.
Proof.
  unfold inner_product_a0_a2.
  destruct (bool_decide (a0 self > 0)), (bool_decide (a2 self > 0));
    cbn [orb].
  - destruct (vertex_areas faces p) as [va|]; [|reflexivity].
    cbn [mbind option_bind].
    rewrite _inner_product_a0_scale, _inner_product_a2_scale.
    destruct (_inner_product_a0 self u v va); [|reflexivity].
    destruct (_inner_product_a2 faces self u v p va); reflexivity.
  - destruct (vertex_areas faces p) as [va|]; [|reflexivity].
    cbn [mbind option_bind]. rewrite _inner_product_a0_scale.
    destruct (_inner_product_a0 self u v va); [|reflexivity].
    simpl. do 2 f_equal. ring.
  - destruct (vertex_areas faces p) as [va|]; [|reflexivity].
    cbn [mbind option_bind]. rewrite _inner_product_a2_scale.
    destruct (_inner_product_a2 faces self u v p va); [|reflexivity].
    simpl. do 2 f_equal. ring.
  - simpl. do 2 f_equal; ring.
Qed.

End Homogeneous.

(** C2, as the code has it. When none of the weights [a1], [b1], [c1] is
    positive, [inner_product] is homogeneous in its first tangent vector:
    scaling the vector by [c] scales the result by [c]. *)
Theorem inner_product_homogeneous_without_first_order (faces : list Face)
    (self : ElasticMetric.Weights) (c : R) (u v p : Surface) :
  ElasticMetric.a1 self <= 0 → ElasticMetric.b1 self <= 0 →
  ElasticMetric.c1 self <= 0 →
  ElasticMetric.inner_product faces self (scal3 c <$> u) v p
  = Rmult c <$> ElasticMetric.inner_product faces self u v p.
Proof.
  intros Ha Hb Hc. unfold ElasticMetric.inner_product.
  rewrite inner_product_a0_a2_scale.
  rewrite !inner_product_first_order_closed by assumption.
  destruct (ElasticMetric.inner_product_a0_a2 faces self u v p) as [[x y]|];
    [|reflexivity].
  simpl. f_equal. ring.
Qed.

(** ** Symmetry of the six terms *)
Section Symmetric.
Import ElasticMetric.
Variable faces : list Face.
Variable self : Weights.

Lemma option_bind_comm {A B C} (mx : option A) (my : option B)
    (f : A → B → option C) :
  (x ← mx; y ← my; f x y) = (y ← my; x ← mx; f x y).
Proof. by destruct mx, my. Qed.














End Symmetric.

Section SymmetricBlocks.
Import ElasticMetric.
Variable faces : list Face.
Variable self : Weights.





End SymmetricBlocks.


(** ** The discrete geodesic *)
Section Geodesic.
Import DiscreteSurfacesExpSolver.
Variable faces : list Face.
Variable metric_inner_product : Surface → Surface → Surface → option R.
Variable metric_squared_norm : Surface → Surface → option R.
Variable n_steps : Z.
Variable value_and_grad :
  (Surface → option R) → Surface → option (R * Surface).
Variable minimize : (list R → option R) → list R → option (list R).

(** The minimizer returns, and returns an array of the size of its
    initial guess. *)
Hypothesis minimize_returns :
  ∀ objective x0, ∃ x, minimize objective x0 = Some x ∧ length x = length x0.

Let n := n_vertices faces.
Let shaped (a : Surface) : Prop := length a = n.

Lemma length_flatten (a : Surface) : length (flatten a) = (length a * 3)%nat.
Proof.
  unfold flatten. induction a as [|[[x0 x1] x2] a IH]; simpl; lia.
Qed.

Lemma rows_length (k : nat) :
  ∀ flat, length flat = (k * 3)%nat →
          ∃ r, rows flat = Some r ∧ length r = k.
Proof.
  induction k as [|k IH]; intros flat Hlen.
  - destruct flat; [|discriminate]. by exists [].
  - destruct flat as [|x0 [|x1 [|x2 flat]]]; simpl in Hlen; try lia.
    destruct (IH flat ltac:(lia)) as (r & Hr & Hk).
    exists ((x0, x1, x2) :: r). simpl. rewrite Hr. simpl.
    split; [reflexivity|lia].
Qed.

Lemma _stepforward_shaped (current_point next_point : Surface) :
  shaped current_point → shaped next_point →
  ∃ next_next_point,
    _stepforward faces metric_inner_product metric_squared_norm
      value_and_grad minimize current_point next_point
    = Some next_next_point
    ∧ shaped next_next_point.
Proof.
  unfold shaped. intros Hc Hn. unfold _stepforward.
  rewrite elementwise_Some by congruence. cbn [mbind option_bind].
  rewrite elementwise_Some
    by (rewrite length_fmap, length_zip_with; lia).
  cbn [mbind option_bind].
  destruct (minimize_returns
              (_objective faces metric_inner_product metric_squared_norm
                 value_and_grad current_point next_point)
              (flatten (zip_with add3
                          (scal3 2 <$> zip_with sub3 next_point current_point)
                          current_point))) as (x & -> & Hx).
  cbn [mbind option_bind].
  rewrite length_flatten, length_zip_with, length_fmap, length_zip_with in Hx.
  unfold reshape. rewrite decide_True by (fold n; lia).
  apply rows_length. fold n. lia.
Qed.

Lemma geod_loop_shaped (k : nat) :
  ∀ geod : list Surface,
    (2 <= length geod)%nat → Forall shaped geod →
    ∃ extra,
      geod_loop faces metric_inner_product metric_squared_norm
        value_and_grad minimize k geod
      = Some (geod ++ extra)
      ∧ length extra = k
      ∧ Forall shaped extra.
Proof.
  induction k as [|k IH]; intros geod Hlen Hshaped.
  - exists []. by rewrite app_nil_r.
  - cbn [geod_loop].
    destruct (reverse geod) as [|last [|before_last rest]] eqn:Hrev.
    + apply (f_equal length) in Hrev. rewrite length_reverse in Hrev.
      simpl in Hrev. lia.
    + apply (f_equal length) in Hrev. rewrite length_reverse in Hrev.
      simpl in Hrev. lia.
    + assert (shaped last ∧ shaped before_last) as [Hl Hb].
      { rewrite Forall_forall in Hshaped.
        split; apply Hshaped, elem_of_reverse; rewrite Hrev;
          rewrite !elem_of_cons; auto. }
      destruct (_stepforward_shaped before_last last Hb Hl) as (nn & -> & Hnn).
      cbn [mbind option_bind].
      destruct (IH (geod ++ [nn])) as (extra & -> & Hk & Hextra).
      { rewrite length_app. simpl. lia. }
      { apply Forall_app. split; [exact Hshaped|]. by constructor. }
      exists (nn :: extra). rewrite <- app_assoc. simpl.
      split; [reflexivity|]. split; [lia|]. by constructor.
Qed.

Lemma stack_shaped (a : Surface) (arrays : list Surface) :
  Forall shaped (a :: arrays) → stack (a :: arrays) = Some (a :: arrays).
Proof.
  intros H. unfold stack. rewrite bool_decide_eq_true_2; [reflexivity|].
  eapply Forall_impl; [exact H|]. intros a' Ha'.
  apply Forall_cons in H as [Ha _]. unfold shaped in *. congruence.
Qed.

(** The geodesic from one base point. *)
Lemma _discrete_geodesic_ivp_single_frames (tangent_vec base_point : Surface) :
  (2 <= n_steps)%Z → shaped tangent_vec → shaped base_point →
  ∃ geod,
    _discrete_geodesic_ivp_single faces metric_inner_product
      metric_squared_norm n_steps value_and_grad minimize
      tangent_vec base_point
    = Some geod
    ∧ Z.of_nat (length geod) = n_steps
    ∧ geod !! 0%nat = Some base_point
    ∧ geod !! 1%nat
      = Some (zip_with add3 base_point
                ((λ t, div3 t (IZR (n_steps - 1))) <$> tangent_vec)).
Proof.
  intros Hsteps Ht Hb. unfold _discrete_geodesic_ivp_single.
  set (next_point := zip_with add3 base_point
                       ((λ t, div3 t (IZR (n_steps - 1))) <$> tangent_vec)).
  assert (shaped next_point) as Hnext.
  { unfold shaped, next_point in *.
    rewrite length_zip_with, length_fmap. lia. }
  rewrite elementwise_Some by (unfold shaped in *; rewrite length_fmap; lia).
  cbn [mbind option_bind]. fold next_point.
  destruct (geod_loop_shaped (Z.to_nat (n_steps - 2)) [base_point; next_point])
    as (extra & -> & Hk & Hextra).
  { simpl. lia. }
  { by repeat constructor. }
  cbn [mbind option_bind app].
  rewrite stack_shaped by (by repeat constructor).
  eexists. split; [reflexivity|]. simpl.
  split; [lia|]. by split.
Qed.

End Geodesic.

(** C6. For [n_steps = 1] the solver returns two frames, not the
    [n_steps] frames of the claim and of the docstring
    ([shape=[n_steps, n_vertices, 3]]): the list of frames starts as
    [[base_point, next_point]] without a look at [n_steps], and
    [range(2, n_steps)] adds none. *)
Lemma discrete_geodesic_ivp_one_step_two_frames :
  ∃ geod,
    DiscreteSurfacesExpSolver.discrete_geodesic_ivp Examples.one_face
      (ElasticMetric.inner_product Examples.one_face
         (Examples.weights 1 1 1 1 1 1))
      (λ vector base_point,
         ElasticMetric.inner_product Examples.one_face
           (Examples.weights 1 1 1 1 1 1) vector vector base_point)
      1 Examples.zero_grad Examples.keep_guess
      (DiscreteSurfacesExpSolver.Single Examples.shear)
      (DiscreteSurfacesExpSolver.Single Examples.unit_triangle)
    = Some (DiscreteSurfacesExpSolver.GeodSingle geod)
    ∧ length geod = 2%nat
    ∧ Z.of_nat (length geod) ≠ 1%Z.
Proof.
  eexists. split; [reflexivity|]. split; [reflexivity|]. simpl. lia.
Qed.

(** The frames for [n_steps] at least 2. With a minimizer that
    returns an array of the size of its initial guess, and a tangent
    vector and base point of the shape of the manifold,
    [discrete_geodesic_ivp] returns exactly [n_steps] frames, the first the
    base point and the second [base_point + tangent_vec / (n_steps - 1)];
    on batches of equal size this holds for every batch element, and a
    single argument against a batch is first repeated along the batch. *)
Theorem discrete_geodesic_ivp_frames (faces : list Face)
    (metric_inner_product : Surface → Surface → Surface → option R)
    (metric_squared_norm : Surface → Surface → option R)
    (n_steps : Z)
    (value_and_grad : (Surface → option R) → Surface → option (R * Surface))
    (minimize : (list R → option R) → list R → option (list R)) :
  let ivp :=
    DiscreteSurfacesExpSolver.discrete_geodesic_ivp faces metric_inner_product
      metric_squared_norm n_steps value_and_grad minimize in
  let first_step (tangent_vec base_point : Surface) : Surface :=
    zip_with add3 base_point
      ((λ t, div3 t (IZR (n_steps - 1))) <$> tangent_vec) in
  (2 <= n_steps)%Z →
  (∀ objective x0, ∃ x, minimize objective x0 = Some x ∧ length x = length x0) →
  (∀ tangent_vec base_point : Surface,
     belongs faces tangent_vec = true → belongs faces base_point = true →
     ∃ geod,
       ivp (DiscreteSurfacesExpSolver.Single tangent_vec)
           (DiscreteSurfacesExpSolver.Single base_point)
       = Some (DiscreteSurfacesExpSolver.GeodSingle geod)
       ∧ Z.of_nat (length geod) = n_steps
       ∧ geod !! 0%nat = Some base_point
       ∧ geod !! 1%nat = Some (first_step tangent_vec base_point))
  ∧ (∀ tangent_vecs base_points : list Surface,
       length tangent_vecs = length base_points → base_points ≠ [] →
       Forall (λ t, belongs faces t = true) tangent_vecs →
       Forall (λ b, belongs faces b = true) base_points →
       ∃ geods,
         ivp (DiscreteSurfacesExpSolver.Batch tangent_vecs)
             (DiscreteSurfacesExpSolver.Batch base_points)
         = Some (DiscreteSurfacesExpSolver.GeodBatch geods)
         ∧ length geods = length base_points
         ∧ ∀ i tangent_vec base_point geod,
             tangent_vecs !! i = Some tangent_vec →
             base_points !! i = Some base_point →
             geods !! i = Some geod →
             Z.of_nat (length geod) = n_steps
             ∧ geod !! 0%nat = Some base_point
             ∧ geod !! 1%nat = Some (first_step tangent_vec base_point))
  ∧ (∀ (tangent_vec : Surface) (base_points : list Surface),
       ivp (DiscreteSurfacesExpSolver.Single tangent_vec)
           (DiscreteSurfacesExpSolver.Batch base_points)
       = ivp (DiscreteSurfacesExpSolver.Batch
                (replicate (length base_points) tangent_vec))
             (DiscreteSurfacesExpSolver.Batch base_points)).
Proof.
  intros ivp first_step Hsteps Hmin.
  pose proof (_discrete_geodesic_ivp_single_frames faces metric_inner_product
                metric_squared_norm n_steps value_and_grad minimize Hmin)
    as Hsingle.
  refine (conj _ (conj _ _)).
  - intros tangent_vec base_point Ht%bool_decide_eq_true Hb%bool_decide_eq_true.
    destruct (Hsingle tangent_vec base_point Hsteps Ht Hb)
      as (geod & Hrun & Hlen & H0 & H1).
    exists geod. unfold ivp, DiscreteSurfacesExpSolver.discrete_geodesic_ivp.
    simpl. rewrite Hrun. by repeat split.
  - intros tangent_vecs base_points Hlen Hne Hts Hbs.
    unfold ivp, DiscreteSurfacesExpSolver.discrete_geodesic_ivp.
    cbn [DiscreteSurfacesExpSolver.ndim]. rewrite bool_decide_eq_false_2 by auto.
    set (single := λ '(tangent_vec_, base_point_),
           DiscreteSurfacesExpSolver._discrete_geodesic_ivp_single faces
             metric_inner_product metric_squared_norm n_steps value_and_grad
             minimize tangent_vec_ base_point_).
    assert (∀ i tangent_vec base_point,
              tangent_vecs !! i = Some tangent_vec →
              base_points !! i = Some base_point →
              ∃ geod, single (tangent_vec, base_point) = Some geod
                      ∧ Z.of_nat (length geod) = n_steps
                      ∧ geod !! 0%nat = Some base_point
                      ∧ geod !! 1%nat
                        = Some (first_step tangent_vec base_point)) as Helem.
    { intros i t b Hti Hbi.
      pose proof (proj1 (Forall_lookup _ _) Hts i t Hti) as Ht.
      pose proof (proj1 (Forall_lookup _ _) Hbs i b Hbi) as Hb.
      apply bool_decide_eq_true in Ht, Hb. by apply Hsingle. }
    destruct (mapM single (zip tangent_vecs base_points)) as [geods|] eqn:Hrun.
    + cbn [mbind option_bind].
      pose proof (mapM_Some_1 _ _ _ Hrun) as Hall.
      assert (length geods = length base_points) as Hgeods.
      { rewrite <- (Forall2_length _ _ _ Hall), length_zip_with. lia. }
      destruct geods as [|g geods'] eqn:Hg.
      { destruct base_points; [done|discriminate]. }
      rewrite <- Hg in *. exists geods.
      split; [reflexivity|]. split; [exact Hgeods|].
      intros i t b geod Hti Hbi Hgi.
      destruct (Helem i t b Hti Hbi) as (geod' & Hrun' & Hprops).
      assert (zip tangent_vecs base_points !! i = Some (t, b)) as Hzip.
      { rewrite lookup_zip_with, Hti, Hbi. reflexivity. }
      pose proof (Forall2_lookup_lr _ _ _ _ _ _ Hall Hzip Hgi) as Heq.
      cbv beta in Heq. rewrite Hrun' in Heq. by simplify_eq.
    + exfalso. apply mapM_None_1, Exists_exists in Hrun
        as ([t b] & Hin & Hnone).
      apply list_elem_of_lookup in Hin as [i Hi].
      rewrite lookup_zip_with in Hi.
      destruct (tangent_vecs !! i) as [t'|] eqn:Hti; [|discriminate].
      destruct (base_points !! i) as [b'|] eqn:Hbi; [|discriminate].
      simplify_eq/=.
      destruct (Helem i t b Hti Hbi) as (geod & Hrun' & _). congruence.
  - intros tangent_vec base_points.
    unfold ivp, DiscreteSurfacesExpSolver.discrete_geodesic_ivp.
    cbn [DiscreteSurfacesExpSolver.ndim].
    rewrite bool_decide_eq_true_2 by lia.
    rewrite bool_decide_eq_false_2 by auto. reflexivity.
Qed.

(** ** The properties on the sample meshes *)

Lemma norm_345 :
  norm (sub3 (3, 0, 0) (0, 4, 0)) = 5
  ∧ norm (sub3 (0, 0, 0) (0, 4, 0)) = 4
  ∧ norm (sub3 (0, 0, 0) (3, 0, 0)) = 3.
Proof. repeat split; simpl; apply sqrt_eq; lra. Qed.

Lemma heron_product_345 : heron_product ((0, 0, 0), (3, 0, 0), (0, 4, 0)) = 36.
Proof.
  unfold heron_product. destruct norm_345 as (-> & -> & ->). lra.
Qed.

Lemma heron_product_345_upper :
  heron_product ((3, 0, 0), (3, 4, 0), (0, 4, 0)) = 36.
Proof.
  unfold heron_product.
  replace (norm (sub3 (3, 4, 0) (0, 4, 0))) with 3
    by (symmetry; simpl; apply sqrt_eq; lra).
  replace (norm (sub3 (3, 0, 0) (0, 4, 0))) with 5
    by (symmetry; simpl; apply sqrt_eq; lra).
  replace (norm (sub3 (3, 0, 0) (3, 4, 0))) with 4
    by (symmetry; simpl; apply sqrt_eq; lra).
  lra.
Qed.




Lemma normals_half_cross_area_orthogonal_witness :
  belongs Examples.one_face Examples.triangle_345 = true
  ∧ ∃ ns, normals Examples.one_face Examples.triangle_345 = Some ns
          ∧ length ns = 1%nat.
Proof.
  split; [reflexivity|].
  destruct (normals_half_cross_area_orthogonal Examples.one_face
              Examples.triangle_345 eq_refl) as (ns & Hns & Hlen & _).
  exists ns. split; assumption.
Defined.

Lemma heron_floor_positive_area_witness :
  ∃ ta, _triangle_areas Examples.one_face Examples.collinear = Some ta
        ∧ Forall (λ t, sqrt 1e-6 <= t ∧ 0 < t) ta.
Proof.
  eexists. split; [reflexivity|].
  apply (heron_floor_positive_area Examples.one_face Examples.collinear).
  reflexivity.
Defined.

(** On three collinear vertices the Heron product is zero, the area is
    the floor [sqrt 1e-6 = 0.001], and the cotangent weights are finite. *)
Example cot_collinear :
  _triangle_areas Examples.one_face Examples.collinear = Some [0.001]
  ∧ (∃ L, laplacian Examples.one_face Examples.collinear = Some L
          ∧ lap_cot_flatten L = [2000; -1000; 2000]).
Proof.
  assert (sqrt ((1 - 2) * (1 - 2) + (0 - 0) * (0 - 0) + (0 - 0) * (0 - 0)) = 1)
    as H12 by (apply sqrt_eq; lra).
  assert (sqrt ((0 - 2) * (0 - 2) + (0 - 0) * (0 - 0) + (0 - 0) * (0 - 0)) = 2)
    as H02 by (apply sqrt_eq; lra).
  assert (sqrt ((0 - 1) * (0 - 1) + (0 - 0) * (0 - 0) + (0 - 0) * (0 - 0)) = 1)
    as H01 by (apply sqrt_eq; lra).
  assert (sqrt (clip_min (0.5 * (1 + 2 + 1) * (0.5 * (1 + 2 + 1) - 1)
                          * (0.5 * (1 + 2 + 1) - 2)
                          * (0.5 * (1 + 2 + 1) - 1)) 1e-6) = 0.001) as Harea.
  { unfold clip_min. rewrite Rmax_right by lra. apply sqrt_eq; lra. }
  split.
  - unfold _triangle_areas. simpl. unfold triangle_area, heron_product. simpl.
    by rewrite H12, H02, H01, Harea.
  - eexists. split; [reflexivity|]. simpl. unfold laplacian_area. simpl.
    rewrite H12, H02, H01, Harea.
    repeat (apply (f_equal2 cons); [lra|]). reflexivity.
Qed.

Lemma laplacian_operator_linear_witness :
  ∃ L, laplacian Examples.one_face Examples.unit_triangle = Some L
       ∧ _laplacian L (replicate 3 zero3) = Some (replicate 3 zero3).
Proof.
  eexists. split; [reflexivity|].
  apply (laplacian_operator_linear Examples.one_face Examples.unit_triangle).
  reflexivity.
Defined.

Lemma inner_product_homogeneous_without_first_order_witness :
  ElasticMetric.inner_product Examples.one_face (Examples.weights 1 0 0 0 0 1)
    (scal3 2 <$> Examples.shear) Examples.stretch Examples.unit_triangle
  = Rmult 2
      <$> ElasticMetric.inner_product Examples.one_face
            (Examples.weights 1 0 0 0 0 1)
            Examples.shear Examples.stretch Examples.unit_triangle.
Proof.
  apply (inner_product_homogeneous_without_first_order Examples.one_face
           (Examples.weights 1 0 0 0 0 1)); simpl; lra.
Defined.

Lemma inner_product_nonpositive_weights_zero_witness :
  ElasticMetric.inner_product Examples.one_face
    (Examples.weights 0 (-1) 0 (-2) 0 0)
    Examples.shear Examples.stretch Examples.unit_triangle
  = Some 0.
Proof.
  apply (inner_product_nonpositive_weights_zero Examples.one_face
           (Examples.weights 0 (-1) 0 (-2) 0 0)); simpl; lra.
Defined.

Lemma discrete_geodesic_ivp_frames_witness :
  ∃ geod,
    DiscreteSurfacesExpSolver.discrete_geodesic_ivp Examples.one_face
      (ElasticMetric.inner_product Examples.one_face
         (Examples.weights 1 1 1 1 1 1))
      (λ vector base_point,
         ElasticMetric.inner_product Examples.one_face
           (Examples.weights 1 1 1 1 1 1) vector vector base_point)
      3 Examples.zero_grad Examples.keep_guess
      (DiscreteSurfacesExpSolver.Single Examples.shear)
      (DiscreteSurfacesExpSolver.Single Examples.unit_triangle)
    = Some (DiscreteSurfacesExpSolver.GeodSingle geod)
    ∧ Z.of_nat (length geod) = 3%Z
    ∧ geod !! 0%nat = Some Examples.unit_triangle.
Proof.
  destruct (discrete_geodesic_ivp_frames Examples.one_face
              (ElasticMetric.inner_product Examples.one_face
                 (Examples.weights 1 1 1 1 1 1))
              (λ vector base_point,
                 ElasticMetric.inner_product Examples.one_face
                   (Examples.weights 1 1 1 1 1 1) vector vector base_point)
              3 Examples.zero_grad Examples.keep_guess)
    as (Hsingle & _).
  - lia.
  - intros objective x0. exists x0. split; reflexivity.
  - destruct (Hsingle Examples.shear Examples.unit_triangle eq_refl eq_refl)
      as (geod & Hrun & Hlen & H0 & _).
    exists geod. repeat split; assumption.
Defined.

(** The stretching and shearing terms are not homogeneous either: the
    same doubling with [a1 = 1], and with [b1 = 1], as the only positive
    weight. *)
Lemma inner_product_not_homogeneous_a1_b1 :
  ElasticMetric.inner_product Examples.one_face (Examples.weights 0 1 0 0 0 0)
    (scal3 2 <$> Examples.stretch) Examples.stretch Examples.unit_triangle
  ≠ Rmult 2
      <$> ElasticMetric.inner_product Examples.one_face
            (Examples.weights 0 1 0 0 0 0)
            Examples.stretch Examples.stretch Examples.unit_triangle
  ∧ ElasticMetric.inner_product Examples.one_face (Examples.weights 0 0 1 0 0 0)
      (scal3 2 <$> Examples.stretch) Examples.stretch Examples.unit_triangle
    ≠ Rmult 2
        <$> ElasticMetric.inner_product Examples.one_face
              (Examples.weights 0 0 1 0 0 0)
              Examples.stretch Examples.stretch Examples.unit_triangle.
Proof.
  split.
  - unfold ElasticMetric.inner_product.
    rewrite !inner_product_a0_a2_closed by (simpl; lra).
    unfold ElasticMetric.inner_product_first_order,
      ElasticMetric.inner_product_a1_b1_d1, ElasticMetric.inner_product_a1_b1.
    cbn [ElasticMetric.a1 ElasticMetric.b1 ElasticMetric.c1 ElasticMetric.d1
           Examples.weights].
    rewrite !(guard_false 0), !(guard_true 1) by lra.
    cbn [orb]. simpl. repeat (case_decide; [lra|]). simpl.
    rewrite (sqrt_eq _ 1) by lra.
    unfold ElasticMetric._inner_product_a1, sum. simpl.
    intros [= Heq]. field_simplify in Heq. lra.
  - unfold ElasticMetric.inner_product.
    rewrite !inner_product_a0_a2_closed by (simpl; lra).
    unfold ElasticMetric.inner_product_first_order,
      ElasticMetric.inner_product_a1_b1_d1, ElasticMetric.inner_product_a1_b1.
    cbn [ElasticMetric.a1 ElasticMetric.b1 ElasticMetric.c1 ElasticMetric.d1
           Examples.weights].
    rewrite !(guard_false 0), !(guard_true 1) by lra.
    cbn [orb]. simpl. repeat (case_decide; [lra|]). simpl.
    rewrite (sqrt_eq _ 1) by lra.
    unfold ElasticMetric._inner_product_b1, sum. simpl.
    intros [= Heq]. field_simplify in Heq. lra.
Qed.

(** The vertex areas of the rectangle: both faces have Heron area 6, the
    two vertices on the shared edge collect two faces each. *)
Example vertex_areas_rectangle_34 :
  vertex_areas Examples.two_faces Examples.rectangle_34 = Some [4; 8; 8; 4].
Proof.
  unfold vertex_areas.
  rewrite (_triangle_areas_vertices _ _
             [((0, 0, 0), (3, 0, 0), (0, 4, 0));
              ((3, 0, 0), (3, 4, 0), (0, 4, 0))]) by reflexivity.
  cbn [fmap list_fmap mbind option_bind]. unfold triangle_area.
  rewrite heron_product_345, heron_product_345_upper, clip_min_id by lra.
  rewrite (sqrt_eq 36 6) by lra. simpl.
  f_equal. repeat (apply (f_equal2 cons); [lra|]). reflexivity.
Qed.

(** With [a0 = 1] as the only positive weight the inner product is the
    vertex-area weighted sum of the dot products of the rows. *)
Example inner_product_a0_stretch_345 :
  ElasticMetric.inner_product Examples.one_face (Examples.weights 1 0 0 0 0 0)
    Examples.stretch Examples.stretch Examples.triangle_345
  = Some 8.
Proof.
  unfold ElasticMetric.inner_product.
  rewrite inner_product_first_order_closed by (simpl; lra).
  unfold ElasticMetric.inner_product_a0_a2.
  cbn [ElasticMetric.a0 ElasticMetric.a2 Examples.weights].
  rewrite (guard_true 1), (guard_false 0) by lra. cbn [orb].
  unfold vertex_areas.
  rewrite (_triangle_areas_vertices _ _ [((0, 0, 0), (3, 0, 0), (0, 4, 0))])
    by reflexivity.
  cbn [fmap list_fmap mbind option_bind]. unfold triangle_area.
  rewrite heron_product_345, clip_min_id by lra.
  rewrite (sqrt_eq 36 6) by lra. simpl.
  unfold sum. simpl. f_equal. lra.
Qed.

(** * Further properties of the module *)

(** ** Bounds and shapes of the geometric primitives *)

Lemma foldr_max_elem (l : list nat) : l ≠ [] → foldr Nat.max 0%nat l ∈ l.
Proof.
  induction l as [|x l IH]; [done|]. intros _. simpl.
  destruct l as [|y l].
  - simpl. rewrite Nat.max_0_r. apply elem_of_cons. by left.
  - destruct (Nat.max_spec x (foldr Nat.max 0%nat (y :: l))) as [[_ ->]|[_ ->]].
    + apply elem_of_cons. right. by apply IH.
    + apply elem_of_cons. by left.
Qed.

Lemma faces_flat_nonempty (faces : list Face) :
  faces ≠ [] → faces_flat faces ≠ [].
Proof. destruct faces as [|[[i0 i1] i2] faces]; [done|]. by intros _. Qed.

Lemma in_range_n_vertices (faces : list Face) (point : Surface) :
  (n_vertices faces <= length point)%nat →
  Forall (λ i, (i < length point)%nat) (faces_flat faces).
Proof.
  intros Hn. apply Forall_forall. intros i Hi.
  apply foldr_max_ge in Hi. unfold n_vertices in Hn. lia.
Qed.

(** The vertices of the faces can be read exactly when the point has at
    least [n_vertices] rows; on a shorter point every primitive raises. *)
Theorem _vertices_returns_iff_enough_rows (faces : list Face) (point : Surface) :
  faces ≠ [] →
  (is_Some (_vertices faces point) ↔ (n_vertices faces <= length point)%nat)
  ∧ ((length point < n_vertices faces)%nat →
     _vertices faces point = None
     ∧ _triangle_areas faces point = None
     ∧ vertex_areas faces point = None
     ∧ normals faces point = None
     ∧ surface_one_forms faces point = None
     ∧ surface_metric_matrices faces point = None
     ∧ face_areas faces point = None
     ∧ laplacian faces point = None).
Proof.
  intros Hne.
  assert (is_Some (_vertices faces point)
          ↔ (n_vertices faces <= length point)%nat) as Hiff.
  { split.
    - intros Hin. apply _vertices_in_range in Hin.
      rewrite Forall_forall in Hin.
      pose proof (Hin _ (foldr_max_elem _ (faces_flat_nonempty _ Hne))).
      unfold n_vertices. lia.
    - intros Hn. by apply _vertices_is_Some, in_range_n_vertices. }
  split; [exact Hiff|]. intros Hshort.
  assert (_vertices faces point = None) as Hv.
  { destruct (_vertices faces point) eqn:E; [|reflexivity].
    assert (n_vertices faces <= length point)%nat by (apply Hiff; eauto). lia. }
  unfold _triangle_areas, vertex_areas, normals, face_areas,
    surface_metric_matrices, surface_one_forms, laplacian, _triangle_areas.
  rewrite Hv. by repeat split.
Qed.

Lemma _vertices_returns_iff_enough_rows_witness :
  is_Some (_vertices Examples.one_face Examples.unit_triangle)
  ∧ _vertices Examples.one_face [(0, 0, 0); (1, 0, 0)] = None.
Proof.
  destruct (_vertices_returns_iff_enough_rows Examples.one_face
              Examples.unit_triangle ltac:(discriminate)) as [Hiff _].
  destruct (_vertices_returns_iff_enough_rows Examples.one_face
              [(0, 0, 0); (1, 0, 0)] ltac:(discriminate)) as [_ Hnone].
  split.
  - apply Hiff. vm_compute. lia.
  - apply Hnone. vm_compute. lia.
Defined.

(** On a point of the manifold every primitive returns, with one entry
    per face or per vertex as documented, and the Laplacian returned for
    the point maps tangent vectors of the manifold to arrays of its
    shape. *)
Theorem primitives_return_on_manifold (faces : list Face) (point : Surface) :
  belongs faces point = true →
  ∃ ta va ns ofs ms fa L,
    _triangle_areas faces point = Some ta ∧ length ta = n_faces faces
    ∧ vertex_areas faces point = Some va ∧ length va = n_vertices faces
    ∧ normals faces point = Some ns ∧ length ns = n_faces faces
    ∧ surface_one_forms faces point = Some ofs ∧ length ofs = n_faces faces
    ∧ surface_metric_matrices faces point = Some ms
    ∧ length ms = n_faces faces
    ∧ face_areas faces point = Some fa ∧ length fa = n_faces faces
    ∧ laplacian faces point = Some L
    ∧ ∀ tangent_vec : Surface,
        belongs faces tangent_vec = true →
        ∃ out, _laplacian L tangent_vec = Some out
               ∧ belongs faces out = true.
Proof.
  intros Hb. pose proof (belongs_in_range _ _ Hb) as Hin.
  apply bool_decide_eq_true in Hb.
  destruct (_vertices_is_Some faces point Hin) as [fcs Hv].
  pose proof (_vertices_length _ _ _ Hv) as Hlen.
  destruct (laplacian_is_Some faces point Hin) as [L HL].
  destruct (laplacian_closure _ _ _ HL) as (Hn & H120 & H201).
  destruct (scatter_add_is_Some (faces_flat faces)
              (replicate (length point) 0)
              (concat (replicate 3 (triangle_area <$> fcs)))) as [inc Hinc].
  { by rewrite length_replicate. }
  exists (triangle_area <$> fcs), ((λ a, 2 * a / 3.0) <$> inc),
    (normal <$> fcs), (one_form <$> fcs),
    (metric_matrix <$> (one_form <$> fcs)),
    ((λ m, sqrt (det m)) <$> (metric_matrix <$> (one_form <$> fcs))), L.
  unfold vertex_areas, _triangle_areas, normals, face_areas,
    surface_metric_matrices, surface_one_forms,
    _surface_metric_matrices_from_one_forms.
  rewrite Hv. cbn [mbind option_bind]. rewrite Hinc. cbn [mbind option_bind].
  rewrite !length_fmap, (scatter_add_length _ _ _ _ Hinc), length_replicate.
  unfold n_faces. repeat (split; [first [reflexivity | assumption]|]).
  intros tangent_vec Ht%bool_decide_eq_true.
  destruct (_laplacian_is_Some L tangent_vec) as [out Hout].
  { by rewrite Ht, <- Hb. }
  { by rewrite Ht, <- Hb. }
  { by rewrite Hn. }
  exists out. split; [exact Hout|].
  apply bool_decide_eq_true. rewrite (_laplacian_length _ _ _ Hout). congruence.
Qed.

Lemma primitives_return_on_manifold_witness :
  ∃ va, vertex_areas Examples.two_faces Examples.rectangle_34 = Some va
        ∧ length va = 4%nat.
Proof.
  destruct (primitives_return_on_manifold Examples.two_faces
              Examples.rectangle_34 eq_refl)
    as (ta & va & ns & ofs & ms & fa & L & _ & _ & Hva & Hlen & _).
  exists va. split; [exact Hva|exact Hlen].
Defined.






(** ** Vertex areas *)

(** [scatter_add] never lowers an entry when the values are not negative,
    leaves alone the entries it is not pointed at, and raises an entry it
    is pointed at by at least the value it carries there. *)
Lemma scatter_add_entries (index : list nat) :
  ∀ (input src out : list R) (lo : R),
    0 <= lo → Forall (λ s, lo <= s) src →
    length index = length src →
    scatter_add input index src = Some out →
    ∀ j x y, input !! j = Some x → out !! j = Some y →
             x <= y
             ∧ (j ∉ index → y = x)
             ∧ (j ∈ index → x + lo <= y).
Proof.
  induction index as [|i index IH];
    intros input [|s src] out lo Hlo Hsrc Hlen Hrun j x y Hx Hy;
    simplify_eq/=.
  - split; [lra|]. split; [done|]. by intros ?%elem_of_nil.
  - apply Forall_cons in Hsrc as [Hs Hsrc].
    destruct (input !! i) as [xi|] eqn:Hi; simplify_eq/=.
    destruct (decide (i = j)) as [->|Hij].
    + assert (<[j:=xi + s]> input !! j = Some (x + s)) as Hj.
      { simplify_eq. apply list_lookup_insert_eq. by eapply lookup_lt_Some. }
      destruct (IH _ _ _ lo Hlo Hsrc ltac:(lia) Hrun j _ y Hj Hy)
        as (Hle & _ & _).
      split; [lra|]. split.
      * intros Hnot. exfalso. apply Hnot, elem_of_cons. by left.
      * intros _. lra.
    + assert (<[i:=xi + s]> input !! j = Some x) as Hj.
      { by rewrite list_lookup_insert_ne. }
      destruct (IH _ _ _ lo Hlo Hsrc ltac:(lia) Hrun j _ y Hj Hy)
        as (Hle & Hout & Hin).
      split; [exact Hle|]. split.
      * intros Hnot. apply Hout. intros Hmem. apply Hnot, elem_of_cons.
        by right.
      * intros [->|Hmem]%elem_of_cons; [done|]. by apply Hin.
Qed.

(** The entries of [vertex_areas]: at least two thirds of the floor at a
    vertex of the triangulation, zero elsewhere. *)
Lemma vertex_areas_entry_bounds (faces : list Face) (point : Surface)
    (va : list R) :
  vertex_areas faces point = Some va →
  length va = length point
  ∧ ∀ j a, va !! j = Some a →
           (j ∈ faces_flat faces → 2 * sqrt 1e-6 / 3 <= a ∧ 0 < a)
           ∧ (j ∉ faces_flat faces → a = 0).
Proof.
  intros Hva. unfold vertex_areas, _triangle_areas in Hva.
  destruct (_vertices faces point) as [fcs|] eqn:Hv; simplify_eq/=.
  set (val := (triangle_area <$> fcs) ++ (triangle_area <$> fcs)
              ++ (triangle_area <$> fcs) ++ []) in Hva.
  destruct (scatter_add (replicate (length point) 0) (faces_flat faces) val)
    as [inc|] eqn:Hinc; simplify_eq/=.
  assert (length (faces_flat faces) = length val) as Hlen.
  { rewrite length_faces_flat. unfold val.
    rewrite !length_app, !length_fmap, (_vertices_length _ _ _ Hv). simpl. lia. }
  assert (Forall (λ s, sqrt 1e-6 <= s) val) as Hval.
  { unfold val. rewrite !Forall_app. repeat split;
      try (apply Forall_fmap, Forall_forall; intros fc _;
           apply triangle_area_floor).
    constructor. }
  pose proof sqrt_floor_pos as Hfloor.
  split.
  - by rewrite length_fmap, (scatter_add_length _ _ _ _ Hinc), length_replicate.
  - intros j a Ha. rewrite list_lookup_fmap in Ha.
    destruct (inc !! j) as [y|] eqn:Hy; simplify_eq/=.
    assert (replicate (length point) 0 !! j = Some 0) as Hx.
    { apply lookup_replicate_2. apply lookup_lt_Some in Hy.
      by rewrite (scatter_add_length _ _ _ _ Hinc), length_replicate in Hy. }
    destruct (scatter_add_entries _ _ _ _ (sqrt 1e-6) ltac:(lra) Hval Hlen
                Hinc j 0 y Hx Hy) as (_ & Hout & Hin).
    rewrite literal_three. split.
    + intros Hj. specialize (Hin Hj). split; lra.
    + intros Hj. rewrite (Hout Hj). field.
Qed.

Lemma vertex_areas_sum (faces : list Face) (point : Surface) (va ta : list R) :
  vertex_areas faces point = Some va →
  _triangle_areas faces point = Some ta →
  sum va = 2 * sum ta.
Proof.
  intros Hva Hta. unfold vertex_areas in Hva. rewrite Hta in Hva.
  cbn [mbind option_bind] in Hva.
  set (val := concat (replicate 3 ta)) in Hva.
  destruct (scatter_add (replicate (length point) 0) (faces_flat faces) val)
    as [inc|] eqn:Hinc; simplify_eq/=.
  unfold _triangle_areas in Hta.
  destruct (_vertices faces point) as [fcs|] eqn:Hv; simplify_eq/=.
  assert (length (faces_flat faces) = length val) as Hlen.
  { rewrite length_faces_flat. unfold val. simpl.
    rewrite !length_app, !length_fmap, (_vertices_length _ _ _ Hv). simpl. lia. }
  rewrite (sum_fmap_ext (λ a, 2 * a / 3.0) (λ a, 2 / 3 * a))
    by (apply Forall_forall; intros a _; rewrite literal_three; field).
  rewrite sum_fmap_scale, (scatter_add_sum _ _ _ _ Hlen Hinc).
  rewrite sum_replicate_0. unfold val. simpl.
  rewrite !sum_app, sum_nil. lra.
Qed.

(** The vertex areas of any point add up to twice the Heron areas of the
    faces; a vertex that occurs in the triangulation has an area of at
    least two thirds of the floor [sqrt 1e-6], and a vertex that occurs in
    no face has area zero. *)
Theorem vertex_areas_total_and_support (faces : list Face) (point : Surface)
    (va ta : list R) :
  vertex_areas faces point = Some va →
  _triangle_areas faces point = Some ta →
  length va = length point
  ∧ sum va = 2 * sum ta
  ∧ ∀ j a, va !! j = Some a →
           (j ∈ faces_flat faces → 2 * sqrt 1e-6 / 3 <= a ∧ 0 < a)
           ∧ (j ∉ faces_flat faces → a = 0).
Proof.
  intros Hva Hta.
  destruct (vertex_areas_entry_bounds _ _ _ Hva) as [Hlen Hentries].
  split; [exact Hlen|]. split; [|exact Hentries].
  by eapply vertex_areas_sum.
Qed.

Lemma vertex_areas_total_and_support_witness :
  ∃ va ta,
    vertex_areas Examples.two_faces Examples.rectangle_34 = Some va
    ∧ _triangle_areas Examples.two_faces Examples.rectangle_34 = Some ta
    ∧ sum va = 2 * sum ta.
Proof.
  eexists _, _. split; [reflexivity|]. split; [reflexivity|].
  apply (vertex_areas_total_and_support Examples.two_faces
           Examples.rectangle_34); reflexivity.
Defined.

(** ** Translations of the base surface *)
Section Translation.
Import Motions.
Variable faces : list Face.
Variable t : V3.

Lemma mapM_cons_eq {A B} (f : A → option B) (x : A) (l : list A) :
  mapM f (x :: l) = y ← f x; k ← mapM f l; Some (y :: k).
Proof. reflexivity. Qed.

Lemma sub3_translate (a b : V3) : sub3 (add3 a t) (add3 b t) = sub3 a b.
Proof.
  destruct a as [[a0 a1] a2], b as [[b0 b1] b2], t as [[t0 t1] t2].
  apply V3_eq; ring.
Qed.

Lemma _vertices_fmap (f : V3 → V3) (point : Surface) :
  _vertices faces (f <$> point)
  = fmap (M:=list) (λ '(v0, v1, v2), (f v0, f v1, f v2))
      <$> _vertices faces point.
Proof.
  unfold _vertices. generalize faces as l.
  induction l as [|[[i0 i1] i2] l IH]; [reflexivity|].
  rewrite !mapM_cons_eq, IH, !list_lookup_fmap.
  destruct (point !! i0), (point !! i1), (point !! i2); try reflexivity.
  cbn [fmap option_fmap option_map mbind option_bind].
  match goal with |- context [mapM ?g l] => by destruct (mapM g l) end.
Qed.

Lemma _vertices_translate (point : Surface) :
  _vertices faces (translate t point)
  = fmap (M:=list) (translate_face t) <$> _vertices faces point.
Proof. apply _vertices_fmap. Qed.

Lemma heron_product_translate (fc : V3 * V3 * V3) :
  heron_product (translate_face t fc) = heron_product fc.
Proof.
  destruct fc as [[v0 v1] v2]. unfold heron_product, translate_face.
  by rewrite !sub3_translate.
Qed.

Lemma triangle_area_translate (fc : V3 * V3 * V3) :
  triangle_area (translate_face t fc) = triangle_area fc.
Proof. unfold triangle_area. by rewrite heron_product_translate. Qed.

Lemma normal_translate (fc : V3 * V3 * V3) :
  normal (translate_face t fc) = normal fc.
Proof.
  destruct fc as [[v0 v1] v2]. unfold normal, translate_face.
  by rewrite !sub3_translate.
Qed.

Lemma one_form_translate (fc : V3 * V3 * V3) :
  one_form (translate_face t fc) = one_form fc.
Proof.
  destruct fc as [[v0 v1] v2]. unfold one_form, translate_face.
  by rewrite !sub3_translate.
Qed.

Lemma cot_translate (fc : V3 * V3 * V3) : cot (translate_face t fc) = cot fc.
Proof.
  unfold cot. rewrite !laplacian_area_triangle_area, triangle_area_translate.
  destruct fc as [[v0 v1] v2]. unfold translate_face.
  by rewrite !sub3_translate.
Qed.

Lemma fmap_translate_face {B} (f : V3 * V3 * V3 → B) (fcs : list (V3 * V3 * V3)) :
  (∀ fc, f (translate_face t fc) = f fc) →
  f <$> (translate_face t <$> fcs) = f <$> fcs.
Proof.
  intros Hf. rewrite <- list_fmap_compose. apply list_fmap_ext.
  intros _ fc _. apply Hf.
Qed.

Lemma _triangle_areas_translate (point : Surface) :
  _triangle_areas faces (translate t point) = _triangle_areas faces point.
Proof.
  unfold _triangle_areas. rewrite _vertices_translate.
  destruct (_vertices faces point) as [fcs|]; [|reflexivity]. simpl.
  by rewrite (fmap_translate_face _ _ triangle_area_translate).
Qed.

Lemma normals_translate (point : Surface) :
  normals faces (translate t point) = normals faces point.
Proof.
  unfold normals. rewrite _vertices_translate.
  destruct (_vertices faces point) as [fcs|]; [|reflexivity]. simpl.
  by rewrite (fmap_translate_face _ _ normal_translate).
Qed.

Lemma surface_one_forms_translate (point : Surface) :
  surface_one_forms faces (translate t point) = surface_one_forms faces point.
Proof.
  unfold surface_one_forms. rewrite _vertices_translate.
  destruct (_vertices faces point) as [fcs|]; [|reflexivity]. simpl.
  by rewrite (fmap_translate_face _ _ one_form_translate).
Qed.

Lemma vertex_areas_translate (point : Surface) :
  vertex_areas faces (translate t point) = vertex_areas faces point.
Proof.
  unfold vertex_areas. rewrite _triangle_areas_translate.
  unfold translate. by rewrite length_fmap.
Qed.

Lemma laplacian_translate (point : Surface) :
  laplacian faces (translate t point) = laplacian faces point.
Proof.
  unfold laplacian. rewrite _vertices_translate.
  destruct (_vertices faces point) as [fcs|]; [|reflexivity]. simpl.
  unfold translate. rewrite length_fmap. do 2 f_equal.
  induction fcs as [|fc fcs IH]; [reflexivity|].
  csimpl. by rewrite IH, cot_translate.
Qed.

Lemma elementwise_add3_translate (point u : Surface) :
  elementwise add3 (translate t point) u
  = translate t <$> elementwise add3 point u.
Proof.
  unfold elementwise, translate. rewrite length_fmap.
  destruct (decide (length point = length u)); [|reflexivity].
  simpl. f_equal. apply list_eq. intros i.
  rewrite list_lookup_fmap, !lookup_zip_with, list_lookup_fmap.
  destruct (point !! i) as [[[p0 p1] p2]|], (u !! i) as [[[u0 u1] u2]|];
    simpl; try reflexivity.
  f_equal. destruct t as [[t0 t1] t2]. apply V3_eq; ring.
Qed.

End Translation.

(** Moving the whole surface by one vector changes none of the
    primitives: areas, normals, one-forms, metric matrices and the
    Laplacian are those of the surface before the move. *)
Theorem primitives_translation_invariant (faces : list Face) (t : V3)
    (point : Surface) :
  _triangle_areas faces (Motions.translate t point)
  = _triangle_areas faces point
  ∧ vertex_areas faces (Motions.translate t point) = vertex_areas faces point
  ∧ normals faces (Motions.translate t point) = normals faces point
  ∧ surface_one_forms faces (Motions.translate t point)
    = surface_one_forms faces point
  ∧ surface_metric_matrices faces (Motions.translate t point)
    = surface_metric_matrices faces point
  ∧ face_areas faces (Motions.translate t point) = face_areas faces point
  ∧ laplacian faces (Motions.translate t point) = laplacian faces point.
Proof.
  unfold face_areas, surface_metric_matrices.
  rewrite _triangle_areas_translate, vertex_areas_translate, normals_translate,
    surface_one_forms_translate, laplacian_translate.
  by repeat split.
Qed.

(** The inner product does not depend on where the base surface sits:
    translating the base point leaves it unchanged, for all weights. *)
Theorem inner_product_translation_invariant (faces : list Face)
    (self : ElasticMetric.Weights) (t : V3) (u v p : Surface) :
  ElasticMetric.inner_product faces self u v (Motions.translate t p)
  = ElasticMetric.inner_product faces self u v p.
Proof.
  assert (ElasticMetric.inner_product_a0_a2 faces self u v
            (Motions.translate t p)
          = ElasticMetric.inner_product_a0_a2 faces self u v p) as H02.
  { unfold ElasticMetric.inner_product_a0_a2, ElasticMetric._inner_product_a2.
    by rewrite vertex_areas_translate, laplacian_translate. }
  unfold ElasticMetric.inner_product. rewrite H02. clear H02.
  enough (ElasticMetric.inner_product_first_order faces self u v
            (Motions.translate t p)
          = ElasticMetric.inner_product_first_order faces self u v p) as ->
    by reflexivity.
  - unfold ElasticMetric.inner_product_first_order.
    rewrite surface_one_forms_translate, normals_translate,
      !elementwise_add3_translate.
    destruct (bool_decide (ElasticMetric.a1 self > 0)
              || bool_decide (ElasticMetric.b1 self > 0)
              || bool_decide (ElasticMetric.c1 self > 0)
              || bool_decide (ElasticMetric.b1 self > 0)); [|reflexivity].
    destruct (surface_one_forms faces p) as [obp|]; [|reflexivity].
    cbn [mbind option_bind].
    destruct (elementwise add3 p u) as [pa|]; [|reflexivity].
    destruct (elementwise add3 p v) as [pb|]; [|reflexivity].
    cbn [mbind option_bind fmap option_fmap option_map].
    unfold ElasticMetric._inner_product_c1, ElasticMetric.inner_product_a1_b1_d1.
    by rewrite !normals_translate, !surface_one_forms_translate.
Qed.

(** ** The kernel of the Laplacian *)

Lemma take_replicate {A} (n : nat) (x : A) (index : list nat) :
  Forall (λ i, (i < n)%nat) index →
  take (replicate n x) index = Some (replicate (length index) x).
Proof.
  induction 1 as [|i index Hi _ IH]; [reflexivity|].
  rewrite take_cons, IH, lookup_replicate_2 by exact Hi. reflexivity.
Qed.

Lemma scatter_add_zero_src (index : list nat) :
  ∀ (input : list R) (k : nat),
    Forall (λ i, (i < length input)%nat) index →
    scatter_add input index (replicate k 0) = Some input.
Proof.
  induction index as [|i index IH]; intros input [|k] Hin; try reflexivity.
  apply Forall_cons in Hin as [Hi Hin]. simpl.
  destruct (lookup_lt_is_Some_2 input i Hi) as [x Hx]. rewrite Hx. simpl.
  rewrite Rplus_0_r, (list_insert_id _ _ _ Hx). by apply IH.
Qed.

Lemma laplacian_closure_index_lengths (faces : list Face) (point : Surface)
    (L : LaplacianAt) :
  laplacian faces point = Some L →
  length (fst (lap_id_vertices L)) = length (snd (lap_id_vertices L)).
Proof.
  unfold laplacian. intros H.
  destruct (_vertices faces point) as [fcs|]; simplify_eq/=.
  unfold id_vertices_120, id_vertices_201.
  induction faces as [|[[i0 i1] i2] l IH]; simpl; [reflexivity|]. by rewrite IH.
Qed.

Lemma _laplacian_replicate (faces : list Face) (point : Surface)
    (L : LaplacianAt) (n : nat) (c : V3) :
  laplacian faces point = Some L → (length point <= n)%nat →
  _laplacian L (replicate n c) = Some (replicate (length point) zero3).
Proof.
  intros HL Hlen. destruct (laplacian_closure _ _ _ HL) as (Hn & H120 & H201).
  unfold _laplacian.
  rewrite !take_replicate
    by (eapply Forall_impl; [eassumption|]; simpl; intros; lia).
  cbn [mbind option_bind].
  rewrite (laplacian_closure_index_lengths _ _ _ HL), zip_with_replicate.
  assert (∀ (w : list R) (k : nat),
            zip_with scal3 w (replicate k (sub3 c c))
            = replicate (length w `min` k) zero3) as Hvalues.
  { intros w k. apply list_eq. intros i. rewrite lookup_zip_with.
    destruct (decide (i < length w `min` k)%nat) as [Hi|Hi].
    - rewrite !lookup_replicate_2 by lia.
      destruct (lookup_lt_is_Some_2 w i ltac:(lia)) as [x ->].
      simpl. f_equal.
      destruct c as [[c0 c1] c2]. apply V3_eq; ring.
    - rewrite (lookup_ge_None_2 (replicate (length w `min` k) zero3))
        by (rewrite length_replicate; lia).
      destruct (w !! i) as [x|] eqn:Hx; [|reflexivity]. simpl.
      apply lookup_lt_Some in Hx.
      by rewrite lookup_ge_None_2 by (rewrite length_replicate; lia). }
  rewrite Hvalues. unfold scatter_add_columns.
  rewrite !column_replicate_zero3, Hn.
  rewrite !scatter_add_zero_src by (by rewrite length_replicate).
  cbn [mbind option_bind]. f_equal. unfold of_columns.
  rewrite !zip_with_replicate. reflexivity.
Qed.

(** The Laplacian at a base point sends every constant vector field to
    the zero field: a rigid translation of the surface has no second-order
    energy. *)
Theorem laplacian_constant_field_zero (faces : list Face) (point : Surface)
    (L : LaplacianAt) (c : V3) :
  laplacian faces point = Some L →
  _laplacian L (replicate (length point) c)
  = Some (replicate (length point) zero3).
Proof. intros HL. by apply (_laplacian_replicate faces). Qed.

Lemma laplacian_constant_field_zero_witness :
  ∃ L, laplacian Examples.one_face Examples.triangle_345 = Some L
       ∧ _laplacian L (replicate 3 (1, 2, 3)) = Some (replicate 3 zero3).
Proof.
  eexists. split; [reflexivity|].
  apply (laplacian_constant_field_zero Examples.one_face Examples.triangle_345).
  reflexivity.
Defined.

(** ** Additivity of the zeroth- and second-order terms *)
Section Additive.
Import ElasticMetric.
Variable faces : list Face.
Variable self : Weights.

Lemma sum_zip_with_plus (xs : list R) :
  ∀ ys, length xs = length ys →
        sum (zip_with Rplus xs ys) = sum xs + sum ys.
Proof.
  induction xs as [|x xs IH]; intros [|y ys] Hlen; simplify_eq/=.
  - rewrite sum_nil. lra.
  - rewrite !sum_cons, IH by done. lra.
Qed.

Lemma weighted_dots_plus (va : list R) (u1 u2 v : list V3) :
  zip_with Rmult va (zip_with dot3 (zip_with add3 u1 u2) v)
  = zip_with Rplus (zip_with Rmult va (zip_with dot3 u1 v))
      (zip_with Rmult va (zip_with dot3 u2 v)).
Proof.
  apply list_eq. intros i. rewrite !lookup_zip_with.
  destruct (va !! i) as [a|], (u1 !! i) as [[[x0 x1] x2]|],
    (u2 !! i) as [[[y0 y1] y2]|], (v !! i) as [[[z0 z1] z2]|];
    simpl; try reflexivity.
  f_equal. ring.
Qed.

Lemma divided_dots_plus (va : list R) (u1 u2 v : list V3) :
  zip_with Rdiv (zip_with dot3 (zip_with add3 u1 u2) v) va
  = zip_with Rplus (zip_with Rdiv (zip_with dot3 u1 v) va)
      (zip_with Rdiv (zip_with dot3 u2 v) va).
Proof.
  apply list_eq. intros i. rewrite !lookup_zip_with.
  destruct (u1 !! i) as [[[x0 x1] x2]|], (u2 !! i) as [[[y0 y1] y2]|],
    (v !! i) as [[[z0 z1] z2]|], (va !! i) as [a|];
    simpl; try reflexivity.
  f_equal. unfold Rdiv. ring.
Qed.

Lemma _inner_product_a0_plus (u1 u2 v : Surface) (va : list R) :
  length u1 = length u2 →
  _inner_product_a0 self (zip_with add3 u1 u2) v va
  = r1 ← _inner_product_a0 self u1 v va;
    r2 ← _inner_product_a0 self u2 v va;
    Some (r1 + r2).
Proof.
  intros Hlen. unfold _inner_product_a0, elementwise.
  rewrite length_zip_with, <- Hlen, Nat.min_id.
  destruct (decide (length u1 = length v)) as [Huv|]; [|reflexivity].
  cbn [mbind option_bind]. rewrite !length_zip_with, <- Hlen, Nat.min_id.
  destruct (decide (length va = length u1 `min` length v)) as [Hva|];
    [|reflexivity].
  cbn [mbind option_bind].
  rewrite weighted_dots_plus, sum_zip_with_plus
    by (rewrite !length_zip_with; lia).
  f_equal. ring.
Qed.

Lemma _inner_product_a2_plus (u1 u2 v p : Surface) (va : list R) :
  _inner_product_a2 faces self (zip_with add3 u1 u2) v p va
  = r1 ← _inner_product_a2 faces self u1 v p va;
    r2 ← _inner_product_a2 faces self u2 v p va;
    Some (r1 + r2).
Proof.
  unfold _inner_product_a2.
  destruct (laplacian faces p) as [L|]; [|reflexivity].
  cbn [mbind option_bind]. rewrite _laplacian_plus.
  destruct (_laplacian L u1) as [l1|] eqn:H1; [|reflexivity].
  cbn [mbind option_bind].
  destruct (_laplacian L u2) as [l2|] eqn:H2; cbn [mbind option_bind].
  2: { by destruct (_laplacian L v). }
  destruct (_laplacian L v) as [lv|]; [|reflexivity].
  cbn [mbind option_bind].
  apply _laplacian_length in H1, H2.
  rewrite divided_dots_plus, sum_zip_with_plus
    by (rewrite !length_zip_with; lia).
  f_equal. ring.
Qed.

Lemma inner_product_a0_a2_plus (u1 u2 v p : Surface) :
  length u1 = length u2 →
  inner_product_a0_a2 faces self (zip_with add3 u1 u2) v p
  = xy1 ← inner_product_a0_a2 faces self u1 v p;
    xy2 ← inner_product_a0_a2 faces self u2 v p;
    Some (xy1.1 + xy2.1, xy1.2 + xy2.2).
Proof.
  intros Hlen. unfold inner_product_a0_a2.
  destruct (bool_decide (a0 self > 0)), (bool_decide (a2 self > 0));
    cbn [orb].
  - destruct (vertex_areas faces p) as [va|]; [|reflexivity].
    cbn [mbind option_bind].
    rewrite _inner_product_a0_plus, _inner_product_a2_plus by done.
    destruct (_inner_product_a0 self u1 v va),
      (_inner_product_a0 self u2 v va),
      (_inner_product_a2 faces self u1 v p va),
      (_inner_product_a2 faces self u2 v p va); reflexivity.
  - destruct (vertex_areas faces p) as [va|]; [|reflexivity].
    cbn [mbind option_bind]. rewrite _inner_product_a0_plus by done.
    destruct (_inner_product_a0 self u1 v va),
      (_inner_product_a0 self u2 v va); try reflexivity.
    simpl. do 2 f_equal. ring.
  - destruct (vertex_areas faces p) as [va|]; [|reflexivity].
    cbn [mbind option_bind]. rewrite _inner_product_a2_plus.
    destruct (_inner_product_a2 faces self u1 v p va),
      (_inner_product_a2 faces self u2 v p va); try reflexivity.
    simpl. do 2 f_equal. ring.
  - simpl. do 2 f_equal; ring.
Qed.

End Additive.

(** When none of the weights [a1], [b1], [c1] is positive, [inner_product]
    is additive in its first tangent vector: on the sum of two tangent
    vectors of one shape it returns the sum of the two inner products (and
    raises when either of them does). *)
Theorem inner_product_additive_without_first_order (faces : list Face)
    (self : ElasticMetric.Weights) (u1 u2 w v p : Surface) :
  ElasticMetric.a1 self <= 0 → ElasticMetric.b1 self <= 0 →
  ElasticMetric.c1 self <= 0 →
  elementwise add3 u1 u2 = Some w →
  ElasticMetric.inner_product faces self w v p
  = x ← ElasticMetric.inner_product faces self u1 v p;
    y ← ElasticMetric.inner_product faces self u2 v p;
    Some (x + y).
Proof.
  intros Ha Hb Hc Hw. unfold elementwise in Hw.
  destruct (decide (length u1 = length u2)) as [Hlen|]; simplify_eq/=.
  unfold ElasticMetric.inner_product.
  rewrite inner_product_a0_a2_plus by done.
  rewrite !inner_product_first_order_closed by assumption.
  destruct (ElasticMetric.inner_product_a0_a2 faces self u1 v p) as [[x1 y1]|];
    [|reflexivity].
  destruct (ElasticMetric.inner_product_a0_a2 faces self u2 v p) as [[x2 y2]|];
    [|reflexivity].
  simpl. f_equal. ring.
Qed.

Lemma inner_product_additive_without_first_order_witness :
  ElasticMetric.inner_product Examples.one_face (Examples.weights 1 0 0 0 0 1)
    (zip_with add3 Examples.shear Examples.stretch) Examples.stretch
    Examples.unit_triangle
  = x ← ElasticMetric.inner_product Examples.one_face
          (Examples.weights 1 0 0 0 0 1) Examples.shear Examples.stretch
          Examples.unit_triangle;
    y ← ElasticMetric.inner_product Examples.one_face
          (Examples.weights 1 0 0 0 0 1) Examples.stretch Examples.stretch
          Examples.unit_triangle;
    Some (x + y).
Proof.
  apply (inner_product_additive_without_first_order Examples.one_face
           (Examples.weights 1 0 0 0 0 1) Examples.shear Examples.stretch);
    first [reflexivity | simpl; lra].
Defined.

(** ** The zeroth-order term is a weighted square norm *)
Section ZerothOrder.
Import ElasticMetric.
Variable faces : list Face.
Variable self : Weights.

Lemma sum_nonneg (l : list R) : Forall (λ x, 0 <= x) l → 0 <= sum l.
Proof.
  induction 1 as [|x l Hx _ IH]; [rewrite sum_nil; lra|].
  rewrite sum_cons. lra.
Qed.

Lemma sum_zero_iff (l : list R) :
  Forall (λ x, 0 <= x) l → sum l = 0 ↔ Forall (λ x, x = 0) l.
Proof.
  induction 1 as [|x l Hx Hl IH].
  - split; [constructor|by rewrite sum_nil].
  - rewrite sum_cons, Forall_cons. pose proof (sum_nonneg l Hl). split.
    + intros Hsum. split; [lra|]. apply IH. lra.
    + intros [-> Hall]. apply IH in Hall. lra.
Qed.

Lemma dot3_self_zero (a : V3) : dot3 a a = 0 ↔ a = zero3.
Proof.
  destruct a as [[a0 a1] a2]. unfold dot3, zero3. split.
  - intros H. apply V3_eq; nra.
  - intros [= -> -> ->]. ring.
Qed.

(** The a0 term on a tangent vector against itself, in closed form. *)
Lemma inner_product_a0_only_self (u p : Surface) (r : R) :
  a1 self <= 0 → b1 self <= 0 → c1 self <= 0 → a2 self <= 0 → 0 < a0 self →
  inner_product faces self u u p = Some r →
  ∃ va, vertex_areas faces p = Some va
        ∧ length u = length va
        ∧ r = a0 self * sum (zip_with Rmult va (zip_with dot3 u u)).
Proof.
  intros Ha Hb Hc H2 H0. unfold inner_product.
  rewrite inner_product_first_order_closed by assumption.
  unfold inner_product_a0_a2.
  rewrite (guard_true (a0 self)), (guard_false (a2 self)) by assumption.
  cbn [orb]. intros Hr.
  destruct (vertex_areas faces p) as [va|]; [|discriminate].
  cbn [mbind option_bind] in Hr. unfold _inner_product_a0, elementwise in Hr.
  rewrite decide_True in Hr by reflexivity. cbn [mbind option_bind] in Hr.
  rewrite length_zip_with, Nat.min_id in Hr.
  destruct (decide (length va = length u)) as [Hlen|]; [|discriminate].
  simpl in Hr. simplify_eq. exists va. split; [reflexivity|].
  split; [done|]. ring.
Qed.

End ZerothOrder.

(** With only the weight [a0] possibly positive, the inner product of a
    tangent vector with itself is never negative; with [a0] positive it is
    zero exactly when the vector vanishes at every vertex that occurs in
    the triangulation. *)
Theorem inner_product_a0_nonnegative_definite (faces : list Face)
    (self : ElasticMetric.Weights) (u p : Surface) (r : R) :
  ElasticMetric.a1 self <= 0 → ElasticMetric.b1 self <= 0 →
  ElasticMetric.c1 self <= 0 → ElasticMetric.a2 self <= 0 →
  ElasticMetric.inner_product faces self u u p = Some r →
  0 <= r
  ∧ (0 < ElasticMetric.a0 self →
     (r = 0 ↔ ∀ j, j ∈ faces_flat faces → u !! j = Some zero3)).
Proof.
  intros Ha Hb Hc H2 Hr.
  destruct (Rle_or_lt (ElasticMetric.a0 self) 0) as [H0|H0].
  { rewrite inner_product_guards_closed in Hr by assumption.
    simplify_eq. split; [lra|]. intros. lra. }
  destruct (inner_product_a0_only_self faces self u p r Ha Hb Hc H2 H0 Hr)
    as (va & Hva & Hlen & ->).
  destruct (vertex_areas_entry_bounds _ _ _ Hva) as [Hlenp Hentries].
  set (W := zip_with Rmult va (zip_with dot3 u u)).
  assert (∀ i a x, va !! i = Some a → u !! i = Some x →
                   W !! i = Some (a * dot3 x x)) as HW.
  { intros i a x Hi Hx. unfold W. rewrite !lookup_zip_with, Hi, Hx.
    reflexivity. }
  assert (Forall (λ x, 0 <= x) W) as Hnonneg.
  { apply Forall_lookup. intros i w Hw. unfold W in Hw.
    rewrite !lookup_zip_with in Hw.
    destruct (va !! i) as [a|] eqn:Hi; [|discriminate].
    destruct (u !! i) as [x|] eqn:Hx; [|discriminate].
    simpl in Hw. simplify_eq.
    pose proof (dot3_self_nonneg x).
    destruct (Hentries i a Hi) as [Hin Hout].
    destruct (decide (i ∈ faces_flat faces)) as [Hmem|Hmem].
    - destruct (Hin Hmem). nra.
    - rewrite (Hout Hmem). lra. }
  pose proof (sum_nonneg W Hnonneg) as Hsum.
  split; [nra|]. intros _.
  assert (ElasticMetric.a0 self * sum W = 0 ↔ sum W = 0) as -> by (split; nra).
  rewrite (sum_zero_iff W Hnonneg), Forall_lookup. split.
  - intros Hzero j Hj.
    assert (is_Some (va !! j)) as [a Hi].
    { apply lookup_lt_is_Some_2. rewrite Hlenp.
      assert (is_Some (_vertices faces p)) as Hv.
      { unfold vertex_areas, _triangle_areas in Hva.
        destruct (_vertices faces p); [eauto|discriminate]. }
      apply _vertices_in_range in Hv. rewrite Forall_forall in Hv. by apply Hv. }
    assert (is_Some (u !! j)) as [x Hx].
    { apply lookup_lt_is_Some_2. rewrite Hlen. by eapply lookup_lt_Some. }
    specialize (Hzero j _ (HW j a x Hi Hx)).
    destruct (Hentries j a Hi) as [Hin _]. destruct (Hin Hj) as [_ Hpos].
    rewrite Hx. f_equal. apply dot3_self_zero. nra.
  - intros Hu i w Hw. unfold W in Hw. rewrite !lookup_zip_with in Hw.
    destruct (va !! i) as [a|] eqn:Hi; [|discriminate].
    destruct (u !! i) as [x|] eqn:Hx; [|discriminate].
    simpl in Hw. simplify_eq.
    destruct (decide (i ∈ faces_flat faces)) as [Hmem|Hmem].
    + rewrite (Hu i Hmem) in Hx. simplify_eq. unfold dot3, zero3. ring.
    + destruct (Hentries i a Hi) as [_ Hout]. rewrite (Hout Hmem). ring.
Qed.

Lemma inner_product_a0_nonnegative_definite_witness :
  ∃ r, ElasticMetric.inner_product Examples.one_face
         (Examples.weights 1 0 0 0 0 0) Examples.stretch Examples.stretch
         Examples.triangle_345 = Some r
       ∧ 0 <= r.
Proof.
  exists 8. split; [exact inner_product_a0_stretch_345|].
  apply (inner_product_a0_nonnegative_definite Examples.one_face
           (Examples.weights 1 0 0 0 0 0) Examples.stretch
           Examples.triangle_345 8);
    first [exact inner_product_a0_stretch_345 | simpl; lra].
Defined.

(** ** Flattening and reshaping *)

Lemma rows_flatten (a : Surface) :
  DiscreteSurfacesExpSolver.rows (DiscreteSurfacesExpSolver.flatten a) = Some a.
Proof.
  induction a as [|[[x0 x1] x2] a IH]; [reflexivity|].
  simpl. fold (DiscreteSurfacesExpSolver.flatten a). by rewrite IH.
Qed.

Lemma flatten_rows (a : Surface) :
  ∀ flat, DiscreteSurfacesExpSolver.rows flat = Some a →
          DiscreteSurfacesExpSolver.flatten a = flat.
Proof.
  induction a as [|[[x0 x1] x2] a IH]; intros flat Hrows.
  - destruct flat as [|y0 [|y1 [|y2 flat]]]; simplify_eq/=; [done|].
    apply bind_Some in Hrows as (r & _ & [=]).
  - destruct flat as [|y0 [|y1 [|y2 flat]]]; simplify_eq/=.
    apply bind_Some in Hrows as (r & Hr & [= -> -> -> ->]).
    fold (DiscreteSurfacesExpSolver.flatten a). by rewrite (IH flat Hr).
Qed.

(** [reshape] undoes [flatten] on arrays of the shape of the manifold and
    on no others, and [flatten] undoes [reshape] wherever it returns. *)
Theorem reshape_flatten_round_trip (faces : list Face) :
  (∀ a : Surface,
     DiscreteSurfacesExpSolver.reshape faces
       (DiscreteSurfacesExpSolver.flatten a) = Some a
     ↔ belongs faces a = true)
  ∧ (∀ (flat : list R) (a : Surface),
       DiscreteSurfacesExpSolver.reshape faces flat = Some a →
       DiscreteSurfacesExpSolver.flatten a = flat
       ∧ belongs faces a = true).
Proof.
  split.
  - intros a. unfold DiscreteSurfacesExpSolver.reshape, belongs.
    rewrite (length_flatten faces), bool_decide_eq_true. split.
    + intros H.
      destruct (decide (length a * 3 = n_vertices faces * 3)%nat);
        [lia|discriminate].
    + intros Hlen. rewrite decide_True by lia. apply rows_flatten.
  - intros flat a. unfold DiscreteSurfacesExpSolver.reshape, belongs.
    destruct (decide (length flat = n_vertices faces * 3)%nat) as [Hlen|];
      [|discriminate].
    intros Hrows. pose proof (flatten_rows a flat Hrows) as Hflat.
    split; [exact Hflat|]. apply bool_decide_eq_true.
    rewrite <- Hflat, (length_flatten faces) in Hlen. lia.
Qed.

(** ** The exponential and the frames of the geodesic *)
Section Exponential.
Import DiscreteSurfacesExpSolver.
Variable faces : list Face.
Variable metric_inner_product : Surface → Surface → Surface → option R.
Variable metric_squared_norm : Surface → Surface → option R.
Variable n_steps : Z.
Variable value_and_grad :
  (Surface → option R) → Surface → option (R * Surface).
Variable minimize : (list R → option R) → list R → option (list R).

Let single :=
  _discrete_geodesic_ivp_single faces metric_inner_product
    metric_squared_norm n_steps value_and_grad minimize.
Let ivp :=
  discrete_geodesic_ivp faces metric_inner_product metric_squared_norm
    n_steps value_and_grad minimize.
Let exponential :=
  exp faces metric_inner_product metric_squared_norm n_steps value_and_grad
    minimize.
Let first_step (tangent_vec base_point : Surface) : Surface :=
  zip_with add3 base_point ((λ t, div3 t (IZR (n_steps - 1))) <$> tangent_vec).

Lemma ivp_single (tangent_vec base_point : Surface) :
  ivp (Single tangent_vec) (Single base_point)
  = GeodSingle <$> single tangent_vec base_point.
Proof. reflexivity. Qed.

Lemma stack_same_length (a : Surface) (arrays : list Surface) :
  Forall (λ a', length a' = length a) arrays →
  stack (a :: arrays) = Some (a :: arrays).
Proof.
  intros H. unfold stack. rewrite bool_decide_eq_true_2; [reflexivity|].
  by constructor.
Qed.

(** With at most two steps the loop body never runs. *)
Lemma single_at_most_two_steps (tangent_vec base_point : Surface) :
  (n_steps <= 2)%Z → length tangent_vec = length base_point →
  single tangent_vec base_point
  = Some [base_point; first_step tangent_vec base_point].
Proof.
  intros Hsteps Hlen. unfold single, _discrete_geodesic_ivp_single.
  rewrite elementwise_Some by (by rewrite length_fmap).
  cbn [mbind option_bind].
  replace (Z.to_nat (n_steps - 2)) with 0%nat by lia.
  cbn [geod_loop mbind option_bind]. apply stack_same_length.
  repeat constructor. unfold first_step.
  rewrite length_zip_with, length_fmap. lia.
Qed.

(** With three steps or more the minimizer is asked for frame 2. *)
Lemma single_minimizer_unusable (tangent_vec base_point : Surface) :
  (3 <= n_steps)%Z →
  (∀ objective x0 x, minimize objective x0 = Some x →
                     length x ≠ (n_vertices faces * 3)%nat) →
  single tangent_vec base_point = None.
Proof.
  intros Hsteps Hmin. unfold single, _discrete_geodesic_ivp_single.
  destruct (elementwise add3 base_point _) as [next_point|]; [|reflexivity].
  cbn [mbind option_bind].
  destruct (Z.to_nat (n_steps - 2)) as [|k] eqn:Hk; [lia|].
  cbn [geod_loop reverse rev_append]. unfold _stepforward.
  destruct (elementwise sub3 next_point base_point) as [step|]; [|reflexivity].
  cbn [mbind option_bind].
  destruct (elementwise add3 _ base_point) as [guess|]; [|reflexivity].
  cbn [mbind option_bind].
  destruct (minimize _ _) as [x|] eqn:Hx; [|reflexivity].
  cbn [mbind option_bind]. unfold reshape.
  by rewrite decide_False by (by eapply Hmin).
Qed.

End Exponential.

(** With [n_steps] at most 2 and other than 1 (where the first step
    divides by zero) the geodesic is the base point followed by the first
    step, whatever the minimizer and the metric, which are never
    consulted; the exponential is the first step, and for [n_steps = 2] it
    is [base_point + tangent_vec]. *)
Theorem exp_at_most_two_steps_is_first_step (faces : list Face)
    (metric_inner_product : Surface → Surface → Surface → option R)
    (metric_squared_norm : Surface → Surface → option R)
    (n_steps : Z)
    (value_and_grad : (Surface → option R) → Surface → option (R * Surface))
    (minimize : (list R → option R) → list R → option (list R))
    (tangent_vec base_point : Surface) :
  let first_step :=
    zip_with add3 base_point
      ((λ t, div3 t (IZR (n_steps - 1))) <$> tangent_vec) in
  (n_steps <= 2)%Z → n_steps ≠ 1%Z →
  length tangent_vec = length base_point →
  DiscreteSurfacesExpSolver.discrete_geodesic_ivp faces metric_inner_product
    metric_squared_norm n_steps value_and_grad minimize
    (DiscreteSurfacesExpSolver.Single tangent_vec)
    (DiscreteSurfacesExpSolver.Single base_point)
  = Some (DiscreteSurfacesExpSolver.GeodSingle [base_point; first_step])
  ∧ DiscreteSurfacesExpSolver.exp faces metric_inner_product
      metric_squared_norm n_steps value_and_grad minimize
      (DiscreteSurfacesExpSolver.Single tangent_vec)
      (DiscreteSurfacesExpSolver.Single base_point)
    = Some (DiscreteSurfacesExpSolver.Single first_step)
  ∧ (n_steps = 2%Z → first_step = zip_with add3 base_point tangent_vec).
Proof.
  intros first_step Hsteps _ Hlen.
  assert (DiscreteSurfacesExpSolver.discrete_geodesic_ivp faces
            metric_inner_product metric_squared_norm n_steps value_and_grad
            minimize (DiscreteSurfacesExpSolver.Single tangent_vec)
            (DiscreteSurfacesExpSolver.Single base_point)
          = Some (DiscreteSurfacesExpSolver.GeodSingle
                    [base_point; first_step])) as Hivp.
  { rewrite ivp_single, single_at_most_two_steps by assumption. reflexivity. }
  split; [exact Hivp|]. split.
  - unfold DiscreteSurfacesExpSolver.exp. rewrite Hivp. reflexivity.
  - intros ->. unfold first_step. f_equal.
    rewrite <- (list_fmap_id tangent_vec) at 2. apply list_fmap_ext.
    intros _ [[t0 t1] t2] _. change (2 - 1)%Z with 1%Z.
    cbn [div3 id]. apply V3_eq; field.
Qed.

Lemma exp_at_most_two_steps_is_first_step_witness :
  DiscreteSurfacesExpSolver.exp Examples.one_face
    (ElasticMetric.inner_product Examples.one_face
       (Examples.weights 1 1 1 1 1 1))
    (λ vector base_point,
       ElasticMetric.inner_product Examples.one_face
         (Examples.weights 1 1 1 1 1 1) vector vector base_point)
    2 Examples.zero_grad Examples.keep_guess
    (DiscreteSurfacesExpSolver.Single Examples.shear)
    (DiscreteSurfacesExpSolver.Single Examples.unit_triangle)
  = Some (DiscreteSurfacesExpSolver.Single
            (zip_with add3 Examples.unit_triangle
               ((λ t, div3 t (IZR (2 - 1))) <$> Examples.shear))).
Proof.
  apply (exp_at_most_two_steps_is_first_step Examples.one_face
           (ElasticMetric.inner_product Examples.one_face
              (Examples.weights 1 1 1 1 1 1))
           (λ vector base_point,
              ElasticMetric.inner_product Examples.one_face
                (Examples.weights 1 1 1 1 1 1) vector vector base_point)
           2 Examples.zero_grad Examples.keep_guess
           Examples.shear Examples.unit_triangle);
    [lia|lia|reflexivity].
Defined.

(** The solver does not catch a failing minimizer: with three steps or
    more, a minimizer that raises, or whose result has not the
    [n_vertices * 3] entries that [reshape] needs, makes the geodesic and
    the exponential raise, for every tangent vector and base point. *)
Theorem minimizer_failure_propagates (faces : list Face)
    (metric_inner_product : Surface → Surface → Surface → option R)
    (metric_squared_norm : Surface → Surface → option R)
    (n_steps : Z)
    (value_and_grad : (Surface → option R) → Surface → option (R * Surface))
    (minimize : (list R → option R) → list R → option (list R))
    (tangent_vec base_point : Surface) :
  (3 <= n_steps)%Z →
  (∀ objective x0 x, minimize objective x0 = Some x →
                     length x ≠ (n_vertices faces * 3)%nat) →
  DiscreteSurfacesExpSolver.discrete_geodesic_ivp faces metric_inner_product
    metric_squared_norm n_steps value_and_grad minimize
    (DiscreteSurfacesExpSolver.Single tangent_vec)
    (DiscreteSurfacesExpSolver.Single base_point)
  = None
  ∧ DiscreteSurfacesExpSolver.exp faces metric_inner_product
      metric_squared_norm n_steps value_and_grad minimize
      (DiscreteSurfacesExpSolver.Single tangent_vec)
      (DiscreteSurfacesExpSolver.Single base_point)
    = None.
Proof.
  intros Hsteps Hmin.
  assert (DiscreteSurfacesExpSolver.discrete_geodesic_ivp faces
            metric_inner_product metric_squared_norm n_steps value_and_grad
            minimize (DiscreteSurfacesExpSolver.Single tangent_vec)
            (DiscreteSurfacesExpSolver.Single base_point) = None) as Hivp.
  { rewrite ivp_single, single_minimizer_unusable by assumption. reflexivity. }
  split; [exact Hivp|].
  unfold DiscreteSurfacesExpSolver.exp. by rewrite Hivp.
Qed.

Lemma minimizer_failure_propagates_witness :
  DiscreteSurfacesExpSolver.exp Examples.one_face
    (ElasticMetric.inner_product Examples.one_face
       (Examples.weights 1 1 1 1 1 1))
    (λ vector base_point,
       ElasticMetric.inner_product Examples.one_face
         (Examples.weights 1 1 1 1 1 1) vector vector base_point)
    10 Examples.zero_grad (λ _ _, None)
    (DiscreteSurfacesExpSolver.Single Examples.shear)
    (DiscreteSurfacesExpSolver.Single Examples.unit_triangle)
  = None.
Proof.
  apply (minimizer_failure_propagates Examples.one_face
           (ElasticMetric.inner_product Examples.one_face
              (Examples.weights 1 1 1 1 1 1))
           (λ vector base_point,
              ElasticMetric.inner_product Examples.one_face
                (Examples.weights 1 1 1 1 1 1) vector vector base_point)
           10 Examples.zero_grad (λ _ _, None)
           Examples.shear Examples.unit_triangle);
    [lia|discriminate].
Defined.

Section Frames.
Import DiscreteSurfacesExpSolver.
Variable faces : list Face.
Variable metric_inner_product : Surface → Surface → Surface → option R.
Variable metric_squared_norm : Surface → Surface → option R.
Variable n_steps : Z.
Variable value_and_grad :
  (Surface → option R) → Surface → option (R * Surface).
Variable minimize : (list R → option R) → list R → option (list R).

Let step :=
  _stepforward faces metric_inner_product metric_squared_norm value_and_grad
    minimize.
Let loop :=
  geod_loop faces metric_inner_product metric_squared_norm value_and_grad
    minimize.

(** Three consecutive frames are linked by [_stepforward]. *)
Let linked (geod : list Surface) : Prop :=
  ∀ k a b c,
    geod !! k = Some a → geod !! S k = Some b → geod !! S (S k) = Some c →
    step a b = Some c.

Lemma reverse_two_last (geod rest : list Surface) (last before_last : Surface) :
  reverse geod = last :: before_last :: rest →
  geod = reverse rest ++ [before_last; last].
Proof.
  intros H. apply (f_equal reverse) in H. rewrite reverse_involutive in H.
  rewrite H, !reverse_cons, <- app_assoc. reflexivity.
Qed.

Lemma loop_linked (k : nat) :
  ∀ geod out, linked geod → loop k geod = Some out →
              linked out ∧ ∃ extra, out = geod ++ extra ∧ length extra = k.
Proof.
  induction k as [|k IH]; intros geod out Hlinked Hloop.
  - simpl in Hloop. simplify_eq. split; [exact Hlinked|].
    exists []. by rewrite app_nil_r.
  - unfold loop in Hloop. cbn [geod_loop] in Hloop.
    destruct (reverse geod) as [|last [|before_last rest]] eqn:Hrev;
      try discriminate.
    apply reverse_two_last in Hrev.
    destruct (_stepforward faces metric_inner_product metric_squared_norm
                value_and_grad minimize before_last last) as [nn|] eqn:Hnn;
      [|discriminate].
    cbn [mbind option_bind] in Hloop.
    destruct (IH (geod ++ [nn]) out) as [Hout (extra & -> & Hk)];
      [|exact Hloop|].
    + intros i a b c Ha Hb Hc.
      destruct (decide (S (S i) < length geod)%nat) as [Hi|Hi].
      * rewrite lookup_app_l in Ha, Hb, Hc by lia. by eapply Hlinked.
      * assert (S (S i) = length geod) as Hlast.
        { apply lookup_lt_Some in Hc. rewrite length_app in Hc. simpl in Hc.
          lia. }
        assert (length geod = (length (reverse rest) + 2)%nat) as Hlen.
        { rewrite Hrev at 1. rewrite length_app. reflexivity. }
        rewrite lookup_app_l in Ha, Hb by lia.
        rewrite Hrev in Ha, Hb.
        rewrite lookup_app_r in Ha, Hb by lia.
        replace (i - length (reverse rest))%nat with 0%nat in Ha by lia.
        replace (S i - length (reverse rest))%nat with 1%nat in Hb by lia.
        rewrite Hlast, lookup_app_r, Nat.sub_diag in Hc by lia.
        simpl in Ha, Hb, Hc. simplify_eq. exact Hnn.
    + split; [exact Hout|]. exists (nn :: extra).
      rewrite <- app_assoc. simpl. split; [reflexivity|lia].
Qed.

End Frames.

(** A geodesic that is returned has [max 2 n_steps] frames and starts
    with the base point; for [n_steps] other than 1 (where the first step
    divides by zero) its second frame is the first step; and each later
    frame is what [_stepforward] returns on the two frames before it. *)
Theorem geodesic_frames_recurrence (faces : list Face)
    (metric_inner_product : Surface → Surface → Surface → option R)
    (metric_squared_norm : Surface → Surface → option R)
    (n_steps : Z)
    (value_and_grad : (Surface → option R) → Surface → option (R * Surface))
    (minimize : (list R → option R) → list R → option (list R))
    (tangent_vec base_point : Surface) (geod : list Surface) :
  DiscreteSurfacesExpSolver.discrete_geodesic_ivp faces metric_inner_product
    metric_squared_norm n_steps value_and_grad minimize
    (DiscreteSurfacesExpSolver.Single tangent_vec)
    (DiscreteSurfacesExpSolver.Single base_point)
  = Some (DiscreteSurfacesExpSolver.GeodSingle geod) →
  Z.of_nat (length geod) = Z.max 2 n_steps
  ∧ geod !! 0%nat = Some base_point
  ∧ (n_steps ≠ 1%Z →
     geod !! 1%nat
     = Some (zip_with add3 base_point
               ((λ t, div3 t (IZR (n_steps - 1))) <$> tangent_vec)))
  ∧ (∀ k a b c,
       geod !! k = Some a → geod !! S k = Some b → geod !! S (S k) = Some c →
       DiscreteSurfacesExpSolver._stepforward faces metric_inner_product
         metric_squared_norm value_and_grad minimize a b = Some c).
Proof.
  unfold DiscreteSurfacesExpSolver.discrete_geodesic_ivp. simpl.
  unfold DiscreteSurfacesExpSolver._discrete_geodesic_ivp_single, elementwise.
  destruct (decide (length base_point = _)); [|discriminate].
  cbn [mbind option_bind].
  destruct (DiscreteSurfacesExpSolver.geod_loop _ _ _ _ _ _ _) as [out|] eqn:Hloop;
    [|discriminate].
  cbn [mbind option_bind fmap option_fmap option_map].
  eapply loop_linked in Hloop as [Hlinked (extra & -> & Hk)].
  2: { intros k a b c Ha Hb Hc. destruct k as [|[|k]]; discriminate. }
  unfold DiscreteSurfacesExpSolver.stack. cbn [app].
  case_bool_decide; [|discriminate]. intros [= <-].
  split; [simpl; lia|].
  split; [reflexivity|]. split; [intros _; reflexivity|]. exact Hlinked.
Qed.

Lemma geodesic_frames_recurrence_witness :
  ∃ geod,
    DiscreteSurfacesExpSolver.discrete_geodesic_ivp Examples.one_face
      (ElasticMetric.inner_product Examples.one_face
         (Examples.weights 1 1 1 1 1 1))
      (λ vector base_point,
         ElasticMetric.inner_product Examples.one_face
           (Examples.weights 1 1 1 1 1 1) vector vector base_point)
      4 Examples.zero_grad Examples.keep_guess
      (DiscreteSurfacesExpSolver.Single Examples.shear)
      (DiscreteSurfacesExpSolver.Single Examples.unit_triangle)
    = Some (DiscreteSurfacesExpSolver.GeodSingle geod)
    ∧ geod !! 0%nat = Some Examples.unit_triangle.
Proof.
  eexists. split; [reflexivity|].
  apply (geodesic_frames_recurrence Examples.one_face
           (ElasticMetric.inner_product Examples.one_face
              (Examples.weights 1 1 1 1 1 1))
           (λ vector base_point,
              ElasticMetric.inner_product Examples.one_face
                (Examples.weights 1 1 1 1 1 1) vector vector base_point)
           4 Examples.zero_grad Examples.keep_guess
           Examples.shear Examples.unit_triangle).
  reflexivity.
Defined.

(** With a minimizer that returns an array of the size of its initial
    guess, the geodesic from a tangent vector and base point of the
    manifold is returned for every [n_steps], all its frames belong to the
    manifold, and the exponential is its last frame, a point of the
    manifold. *)
Theorem geodesic_frames_belong (faces : list Face)
    (metric_inner_product : Surface → Surface → Surface → option R)
    (metric_squared_norm : Surface → Surface → option R)
    (n_steps : Z)
    (value_and_grad : (Surface → option R) → Surface → option (R * Surface))
    (minimize : (list R → option R) → list R → option (list R))
    (tangent_vec base_point : Surface) :
  (∀ objective x0, ∃ x, minimize objective x0 = Some x ∧ length x = length x0) →
  belongs faces tangent_vec = true → belongs faces base_point = true →
  ∃ geod end_point,
    DiscreteSurfacesExpSolver.discrete_geodesic_ivp faces metric_inner_product
      metric_squared_norm n_steps value_and_grad minimize
      (DiscreteSurfacesExpSolver.Single tangent_vec)
      (DiscreteSurfacesExpSolver.Single base_point)
    = Some (DiscreteSurfacesExpSolver.GeodSingle geod)
    ∧ Forall (λ frame, belongs faces frame = true) geod
    ∧ DiscreteSurfacesExpSolver.exp faces metric_inner_product
        metric_squared_norm n_steps value_and_grad minimize
        (DiscreteSurfacesExpSolver.Single tangent_vec)
        (DiscreteSurfacesExpSolver.Single base_point)
      = Some (DiscreteSurfacesExpSolver.Single end_point)
    ∧ last geod = Some end_point
    ∧ belongs faces end_point = true.
Proof.
  intros Hmin Ht%bool_decide_eq_true Hb%bool_decide_eq_true.
  set (next_point := zip_with add3 base_point
                       ((λ t, div3 t (IZR (n_steps - 1))) <$> tangent_vec)).
  assert (length next_point = n_vertices faces) as Hnext.
  { unfold next_point. rewrite length_zip_with, length_fmap. lia. }
  destruct (geod_loop_shaped faces metric_inner_product metric_squared_norm
              value_and_grad minimize Hmin (Z.to_nat (n_steps - 2))
              [base_point; next_point]) as (extra & Hloop & _ & Hextra).
  { simpl. lia. }
  { by repeat constructor. }
  assert (Forall (λ a, length a = n_vertices faces)
            (base_point :: next_point :: extra)) as Hall.
  { by repeat constructor. }
  assert (DiscreteSurfacesExpSolver.discrete_geodesic_ivp faces
            metric_inner_product metric_squared_norm n_steps value_and_grad
            minimize (DiscreteSurfacesExpSolver.Single tangent_vec)
            (DiscreteSurfacesExpSolver.Single base_point)
          = Some (DiscreteSurfacesExpSolver.GeodSingle
                    (base_point :: next_point :: extra))) as Hivp.
  { unfold DiscreteSurfacesExpSolver.discrete_geodesic_ivp. simpl.
    unfold DiscreteSurfacesExpSolver._discrete_geodesic_ivp_single.
    rewrite elementwise_Some by (rewrite length_fmap; lia).
    cbn [mbind option_bind]. fold next_point. rewrite Hloop.
    cbn [mbind option_bind app]. by rewrite (stack_shaped faces). }
  assert (Forall (λ frame, belongs faces frame = true)
            (base_point :: next_point :: extra)) as Hbelong.
  { eapply Forall_impl; [exact Hall|]. intros a Ha.
    by apply bool_decide_eq_true. }
  destruct (last (base_point :: next_point :: extra)) as [end_point|] eqn:Hlast.
  2: { by apply last_None in Hlast. }
  exists (base_point :: next_point :: extra), end_point.
  split; [exact Hivp|]. split; [exact Hbelong|]. split.
  { unfold DiscreteSurfacesExpSolver.exp. rewrite Hivp.
    cbn [mbind option_bind]. by rewrite Hlast. }
  split; [exact Hlast|].
  rewrite Forall_forall in Hbelong. apply Hbelong.
  apply last_Some in Hlast as [l' ->]. apply elem_of_app. right.
  apply elem_of_cons; by left.
Qed.

Lemma geodesic_frames_belong_witness :
  ∃ geod,
    DiscreteSurfacesExpSolver.discrete_geodesic_ivp Examples.one_face
      (ElasticMetric.inner_product Examples.one_face
         (Examples.weights 1 1 1 1 1 1))
      (λ vector base_point,
         ElasticMetric.inner_product Examples.one_face
           (Examples.weights 1 1 1 1 1 1) vector vector base_point)
      5 Examples.zero_grad Examples.keep_guess
      (DiscreteSurfacesExpSolver.Single Examples.shear)
      (DiscreteSurfacesExpSolver.Single Examples.unit_triangle)
    = Some (DiscreteSurfacesExpSolver.GeodSingle geod)
    ∧ Forall (λ frame, belongs Examples.one_face frame = true) geod.
Proof.
  destruct (geodesic_frames_belong Examples.one_face
              (ElasticMetric.inner_product Examples.one_face
                 (Examples.weights 1 1 1 1 1 1))
              (λ vector base_point,
                 ElasticMetric.inner_product Examples.one_face
                   (Examples.weights 1 1 1 1 1 1) vector vector base_point)
              5 Examples.zero_grad Examples.keep_guess
              Examples.shear Examples.unit_triangle)
    as (geod & end_point & Hivp & Hall & _).
  - intros objective x0. exists x0. by split.
  - reflexivity.
  - reflexivity.
  - exists geod. by split.
Defined.

(** A batch is solved element by element: the geodesics returned for two
    batches are as many as the shorter batch has elements, and the one at
    each position is the geodesic that the solver returns for the tangent
    vector and base point at that position alone. *)
Theorem batch_geodesics_are_independent (faces : list Face)
    (metric_inner_product : Surface → Surface → Surface → option R)
    (metric_squared_norm : Surface → Surface → option R)
    (n_steps : Z)
    (value_and_grad : (Surface → option R) → Surface → option (R * Surface))
    (minimize : (list R → option R) → list R → option (list R))
    (tangent_vecs base_points : list Surface) (geods : list (list Surface)) :
  let ivp :=
    DiscreteSurfacesExpSolver.discrete_geodesic_ivp faces metric_inner_product
      metric_squared_norm n_steps value_and_grad minimize in
  ivp (DiscreteSurfacesExpSolver.Batch tangent_vecs)
      (DiscreteSurfacesExpSolver.Batch base_points)
  = Some (DiscreteSurfacesExpSolver.GeodBatch geods) →
  length geods = (length tangent_vecs `min` length base_points)%nat
  ∧ geods ≠ []
  ∧ ∀ i geod,
      geods !! i = Some geod →
      ∃ tangent_vec base_point,
        tangent_vecs !! i = Some tangent_vec
        ∧ base_points !! i = Some base_point
        ∧ ivp (DiscreteSurfacesExpSolver.Single tangent_vec)
              (DiscreteSurfacesExpSolver.Single base_point)
          = Some (DiscreteSurfacesExpSolver.GeodSingle geod).
Proof.
  intros ivp. unfold ivp, DiscreteSurfacesExpSolver.discrete_geodesic_ivp.
  cbn [DiscreteSurfacesExpSolver.ndim]. rewrite bool_decide_eq_false_2 by auto.
  destruct (mapM _ (zip tangent_vecs base_points)) as [out|] eqn:Hrun;
    [|discriminate].
  cbn [mbind option_bind]. destruct out as [|g out]; [discriminate|].
  intros [= <-]. apply mapM_Some_1 in Hrun.
  split; [|split; [done|]].
  - rewrite <- (Forall2_length _ _ _ Hrun). apply length_zip_with.
  - intros i geod Hi.
    destruct (Forall2_lookup_r _ _ _ _ _ Hrun Hi) as ([t b] & Hzip & Hsingle).
    rewrite lookup_zip_with in Hzip.
    destruct (tangent_vecs !! i) as [t'|]; [|discriminate].
    destruct (base_points !! i) as [b'|]; [|discriminate].
    simplify_eq/=. exists t, b. split; [reflexivity|]. split; [reflexivity|].
    by rewrite Hsingle.
Qed.

Lemma batch_geodesics_are_independent_witness :
  ∃ geods,
    DiscreteSurfacesExpSolver.discrete_geodesic_ivp Examples.one_face
      (ElasticMetric.inner_product Examples.one_face
         (Examples.weights 1 1 1 1 1 1))
      (λ vector base_point,
         ElasticMetric.inner_product Examples.one_face
           (Examples.weights 1 1 1 1 1 1) vector vector base_point)
      3 Examples.zero_grad Examples.keep_guess
      (DiscreteSurfacesExpSolver.Batch [Examples.shear; Examples.stretch])
      (DiscreteSurfacesExpSolver.Batch
         [Examples.unit_triangle; Examples.triangle_345])
    = Some (DiscreteSurfacesExpSolver.GeodBatch geods)
    ∧ length geods = 2%nat.
Proof.
  eexists. split; [reflexivity|].
  apply (batch_geodesics_are_independent Examples.one_face
           (ElasticMetric.inner_product Examples.one_face
              (Examples.weights 1 1 1 1 1 1))
           (λ vector base_point,
              ElasticMetric.inner_product Examples.one_face
                (Examples.weights 1 1 1 1 1 1) vector vector base_point)
           3 Examples.zero_grad Examples.keep_guess
           [Examples.shear; Examples.stretch]
           [Examples.unit_triangle; Examples.triangle_345]).
  reflexivity.
Defined.

(** ** The zero tangent vector *)
Section ZeroVector.
Import ElasticMetric.
Variable faces : list Face.
Variable self : Weights.
















End ZeroVector.



